(** * The Rancher metadata caching repository

    A shallow embedding of the [rancher] package's repository (the
    [metadataCachingRepository] type with its lookups, its two refresh
    operations and the enrichment cycle of [cachePopulateEvery]) and of the
    two [UnmarshalJSON] methods that decode the upstream wire payload.

    Go pointers are modelled by an explicit store: a [*Container] is either
    [None] (Go's nil) or [Some l] for a cell [l] of the container store, so
    that the slice [containers] and the map [containerMap] alias the same
    objects, as they do in the source. *)

From Stdlib Require Import ZArith String Ascii List Lia.
From stdpp Require Import base option list gmap strings fin_maps.

Set Warnings "-register-all".

Local Open Scope string_scope.
Local Open Scope Z_scope.

(** ** Outcomes of Go code: a normal return or a run-time panic *)

Inductive outcome (A : Type) : Type :=
  | Returned (a : A)
  | Panicked.
Arguments Returned {A} a.
Arguments Panicked {A}.

#[global] Instance outcome_ret : MRet outcome := λ A a, Returned a.
#[global] Instance outcome_bind : MBind outcome := λ A B f m,
  match m with
  | Returned a => f a
  | Panicked => Panicked
  end.

(** ** Errors of the package

    The four business errors and [ErrNotImplemented] are the package's
    variables; [ErrDecode] and [ErrTransport] stand for the errors that the
    JSON decoder and the HTTP client hand back. *)

Inductive error : Type :=
  | ErrContainerNotFound
  | ErrContainerRepoEmpty
  | ErrHostNotFound
  | ErrHostRepoEmpty
  | ErrNotImplemented
  | ErrDecode
  | ErrTransport.

#[global] Instance error_eq_dec : EqDecision error.
Proof. solve_decision. Defined.

(** ** strconv.ParseInt(s, 10, 64)

    The Go standard library routine that [Container.UnmarshalJSON] calls,
    with its unsigned 64-bit accumulator and its two overflow tests written
    out.  Both routines return a value together with an optional error; the
    caller in this package drops the error and keeps the value. *)

Module strconv.

Inductive NumError : Type := ErrSyntax | ErrRange.

Definition maxUint64 : Z := 2 ^ 64 - 1.

(** Smallest number such that [cutoff * 10 > maxUint64]. *)
Definition cutoff10 : Z := maxUint64 / 10 + 1.

(** ['0' <= c && c <= '9'], giving [c - '0']. *)
Definition digit (c : ascii) : option Z :=
  let n := Z.of_N (N_of_ascii c) in
  if (48 <=? n) && (n <=? 57) then Some (n - 48) else None.

(** The loop over the bytes of [s], from accumulator [n]. *)
Fixpoint ParseUint_loop (s : string) (n : Z) : Z * option NumError :=
  match s with
  | EmptyString => (n, None)
  | String c s' =>
      match digit c with
      | None => (0, Some ErrSyntax)
      | Some d =>
          if cutoff10 <=? n then (maxUint64, Some ErrRange)
          else
            let n := n * 10 in
            let n1 := (n + d) mod 2 ^ 64 in
            if (n1 <? n) || (maxUint64 <? n1) then (maxUint64, Some ErrRange)
            else ParseUint_loop s' n1
      end
  end.

Definition ParseUint (s : string) : Z * option NumError :=
  match s with
  | EmptyString => (0, Some ErrSyntax)
  | _ => ParseUint_loop s 0
  end.

Definition ParseInt (s : string) : Z * option NumError :=
  match s with
  | EmptyString => (0, Some ErrSyntax)
  | String c0 rest =>
      let '(neg, s1) :=
        if Ascii.eqb c0 "+" then (false, rest)
        else if Ascii.eqb c0 "-" then (true, rest)
        else (false, s) in
      let '(un, err) := ParseUint s1 in
      match err with
      | Some ErrSyntax => (0, err)
      | _ =>
          let cutoff := 2 ^ 63 in
          if negb neg && (cutoff <=? un) then (cutoff - 1, Some ErrRange)
          else if neg && (cutoff <? un) then (- cutoff, Some ErrRange)
          else (if neg then - un else un, None)
      end
  end.


(** [strconv.ParseFloat(s, 64)] on the literal of a JSON number, the
    routine [encoding/json] calls for every number it stores in an
    [interface{}].  The literal is [-]digits[.digits][(e|E)[+|-]digits]
    and denotes, up to its sign, [m * 10 ^ k] for the number [m] that its
    digits write and the exponent [k] less the count of fraction digits.
    Of the result only the error matters here: the routine rounds to the
    nearest [float64] and reports a range error when the value is more than
    half a unit in the last place above the largest one, that is when it
    reaches [2 ^ 1024 - 2 ^ 970]. *)

(** The digits at the head of [s], appended to those of [acc]; their count;
    the rest of [s]. *)
Fixpoint leading_digits (s : string) (acc : Z) (count : Z)
  : Z * Z * string :=
  match s with
  | EmptyString => (acc, count, s)
  | String c s' =>
      match digit c with
      | Some d => leading_digits s' (acc * 10 + d) (count + 1)
      | None => (acc, count, s)
      end
  end.

(** [number_literal s = Some (m, k)]: the literal [s] denotes
    [m * 10 ^ k] or its negative. *)
Definition number_literal (s : string) : option (Z * Z) :=
  let s :=
    match s with
    | String c s' => if Ascii.eqb c "-" then s' else s
    | EmptyString => s
    end in
  let '(m, n, s) := leading_digits s 0 0 in
  if n =? 0 then None
  else
    let fraction :=
      match s with
      | String c s' =>
          if Ascii.eqb c "." then
            let '(m, f, s) := leading_digits s' m 0 in
            if f =? 0 then None else Some (m, f, s)
          else Some (m, 0, s)
      | EmptyString => Some (m, 0, s)
      end in
    match fraction with
    | None => None
    | Some (m, f, EmptyString) => Some (m, - f)
    | Some (m, f, String c s') =>
        if Ascii.eqb c "e" || Ascii.eqb c "E" then
          let '(neg, s') :=
            match s' with
            | String c' t =>
                if Ascii.eqb c' "+" then (false, t)
                else if Ascii.eqb c' "-" then (true, t)
                else (false, s')
            | EmptyString => (false, s')
            end in
          match leading_digits s' 0 0 with
          | (e, n, EmptyString) =>
              if n =? 0 then None
              else Some (m, (if neg then - e else e) - f)
          | _ => None
          end
        else None
    end.

(** The first number that rounds to an infinity. *)
Definition float64_bound : Z := 2 ^ 1024 - 2 ^ 970.

(** [ParseFloat(s, 64)] returns no error. *)
Definition ParseFloat_ok (s : string) : bool :=
  match number_literal s with
  | None => false
  | Some (m, k) =>
      if 0 <=? k then m * 10 ^ k <? float64_bound
      else m <? float64_bound * 10 ^ (- k)
  end.

End strconv.

(** ** JSON values as [encoding/json] hands them out

    A value decoded into [interface{}] is nil, a bool, a number, a string,
    a slice or a map.  No code of the package looks inside a number, so a
    number keeps its literal. *)

Inductive json : Type :=
  | JNull
  | JBool (b : bool)
  | JNumber (lit : string)
  | JString (s : string)
  | JArray (items : list json)
  | JObject (members : list (string * json)).

(** The bytes handed to an [UnmarshalJSON] method: either they are not a
    JSON text, or they are the text of a value. *)
Definition raw : Type := option json.

(** A value that [encoding/json] can store in an [interface{}]: every
    number in it, at any depth, is one that [strconv.ParseFloat] turns
    into a [float64] without an error. *)
Fixpoint representable (v : json) : bool :=
  match v with
  | JNumber lit => strconv.ParseFloat_ok lit
  | JArray items => forallb representable items
  | JObject members => forallb (λ '(_, v), representable v) members
  | _ => true
  end.

(** [json.Unmarshal(b, &data)] with [data] a nil [map[string]interface{}]:
    an object fills the map, member by member, a later member replacing an
    earlier one with the same key, and the call returns an error when some
    number of the object cannot be stored (the map is then of no use: both
    callers return the error at once); [null] leaves the map nil; any
    other value, and bytes that are no JSON text, give an error. *)
Definition json_Unmarshal_map (b : raw) : gmap string json * option error :=
  match b with
  | None => (∅, Some ErrDecode)
  | Some (JObject members) =>
      if representable (JObject members) then
        (foldl (λ m kv, <[kv.1 := kv.2]> m) ∅ members, None)
      else (∅, Some ErrDecode)
  | Some JNull => (∅, None)
  | Some _ => (∅, Some ErrDecode)
  end.

(** [data[k]]: indexing a Go map gives the zero value, a nil interface, for
    a missing key. *)
Definition index (data : gmap string json) (k : string) : json :=
  default JNull (data !! k).

(** [v.(string)]: the one-result type assertion panics unless the dynamic
    type is string. *)
Definition assert_string (v : json) : outcome string :=
  match v with
  | JString s => Returned s
  | _ => Panicked
  end.

(** [v != nil] for an interface value. *)
Definition not_nil (v : json) : bool :=
  match v with
  | JNull => false
  | _ => true
  end.

(** ** The data model *)

Record Host : Type := mkHost {
  Host_UUID : string;
  Host_Name : string
}.

Record Container : Type := mkContainer {
  Container_Name : string;
  Container_State : string;
  Container_PrivateIP : string;
  Container_ServiceIndex : Z;
  Container_Host : Host
}.

#[global] Instance Host_eq_dec : EqDecision Host.
Proof. solve_decision. Defined.
#[global] Instance Container_eq_dec : EqDecision Container.
Proof. solve_decision. Defined.

(** Zero values, what [new(Host)] and [new(Container)] hold. *)
Definition zero_Host : Host := mkHost "" "".
Definition zero_Container : Container := mkContainer "" "" "" 0 zero_Host.

(** Field assignments through the receiver. *)
Definition set_Name (v : string) (c : Container) : Container :=
  mkContainer v (Container_State c) (Container_PrivateIP c)
    (Container_ServiceIndex c) (Container_Host c).
Definition set_State (v : string) (c : Container) : Container :=
  mkContainer (Container_Name c) v (Container_PrivateIP c)
    (Container_ServiceIndex c) (Container_Host c).
Definition set_PrivateIP (v : string) (c : Container) : Container :=
  mkContainer (Container_Name c) (Container_State c) v
    (Container_ServiceIndex c) (Container_Host c).
Definition set_ServiceIndex (v : Z) (c : Container) : Container :=
  mkContainer (Container_Name c) (Container_State c) (Container_PrivateIP c)
    v (Container_Host c).
Definition set_Host_UUID (v : string) (c : Container) : Container :=
  mkContainer (Container_Name c) (Container_State c) (Container_PrivateIP c)
    (Container_ServiceIndex c) (mkHost v (Host_Name (Container_Host c))).
Definition set_Host_Name (v : string) (c : Container) : Container :=
  mkContainer (Container_Name c) (Container_State c) (Container_PrivateIP c)
    (Container_ServiceIndex c) (mkHost (Host_UUID (Container_Host c)) v).

(** ** The two decoders

    Each takes the receiver's current value and the bytes, and returns the
    receiver's new value with the method's error result, or panics. *)

Definition Container_UnmarshalJSON (c : Container) (b : raw)
  : outcome (Container * option error) :=
  let '(data, err) := json_Unmarshal_map b in
  match err with
  | Some e => Returned (c, Some e)
  | None =>
      name ← assert_string (index data "name");
      let c := set_Name name c in
      state ← assert_string (index data "state");
      let c := set_State state c in
      ip ← assert_string (index data "primary_ip");
      let c := set_PrivateIP ip c in
      c ← (let serviceIndex := index data "service_index" in
           if not_nil serviceIndex then
             s ← assert_string serviceIndex;
             Returned (set_ServiceIndex (strconv.ParseInt s).1 c)
           else Returned c);
      c ← (let hostUUID := index data "host_uuid" in
           if not_nil hostUUID then
             s ← assert_string hostUUID;
             Returned (set_Host_UUID s c)
           else Returned c);
      Returned (c, None)
  end.

Definition Host_UnmarshalJSON (h : Host) (b : raw)
  : outcome (Host * option error) :=
  let '(data, err) := json_Unmarshal_map b in
  match err with
  | Some e => Returned (h, Some e)
  | None =>
      uuid ← assert_string (index data "uuid");
      let h := mkHost uuid (Host_Name h) in
      name ← assert_string (index data "name");
      let h := mkHost (Host_UUID h) name in
      Returned (h, None)
  end.



(** ** The store and the pointers

    A [ptr] is Go's [*Container] or [*Host]: [None] is nil, [Some l] is the
    address of cell [l].  The store of each type is a list, cell [l] being
    its [l]-th element; an allocation appends a cell and nothing is ever
    freed (the collector only reclaims what no pointer reaches). *)

Abbreviation ptr := (option nat) (only parsing).

(** [*p]: dereferencing nil panics. *)
Definition deref {A} (heap : list A) (p : ptr) : outcome A :=
  match p with
  | None => Panicked
  | Some l =>
      match heap !! l with
      | Some v => Returned v
      | None => Panicked
      end
  end.

(** The objects a decoded slice points to: each non-nil element is a cell
    allocated by the decoder, a JSON [null] element is a nil pointer. *)
Fixpoint new_objects {A} (heap : list A) (items : list (option A))
  : list A * list ptr :=
  match items with
  | [] => (heap, [])
  | None :: items =>
      let '(heap', ps) := new_objects heap items in (heap', None :: ps)
  | Some v :: items =>
      let '(heap', ps) := new_objects (heap ++ [v]) items in
      (heap', Some (length heap) :: ps)
  end.

Record metadataCachingRepository : Type := mkRepository {
  containers : list ptr;
  containerMap : gmap string ptr;
  hosts : list ptr;
  hostMap : gmap string ptr
}.

(** The process state the repository lives in: its four fields and the two
    stores its pointers refer to. *)
Record World : Type := mkWorld {
  container_store : list Container;
  host_store : list Host;
  mcr : metadataCachingRepository
}.

(** ** The client service

    What one call of [MetadataContainers] or [MetadataHosts] does is decided
    by the upstream and the decoder: the call returns an error, or panics
    inside a decoder, or returns a freshly decoded slice. *)

Inductive response (A : Type) : Type :=
  | Fails (e : error)
  | Crashes
  | Delivers (items : list (option A)).
Arguments Fails {A} e.
Arguments Crashes {A}.
Arguments Delivers {A} items.

Definition MetadataContainers (r : response Container) (w : World)
  : outcome (World * (list ptr * option error)) :=
  match r with
  | Fails e => Returned (w, ([], Some e))
  | Crashes => Panicked
  | Delivers items =>
      let '(heap, cs) := new_objects (container_store w) items in
      Returned (mkWorld heap (host_store w) (mcr w), (cs, None))
  end.

Definition MetadataHosts (r : response Host) (w : World)
  : outcome (World * (list ptr * option error)) :=
  match r with
  | Fails e => Returned (w, ([], Some e))
  | Crashes => Panicked
  | Delivers items =>
      let '(heap, hs) := new_objects (host_store w) items in
      Returned (mkWorld (container_store w) heap (mcr w), (hs, None))
  end.

(** ** Lookups *)

Definition ContainerByName (r : metadataCachingRepository) (name : string)
  : ptr * option error :=
  if decide (size (containerMap r) = 0%nat) then (None, Some ErrContainerRepoEmpty)
  else
    match containerMap r !! name with
    | None => (None, Some ErrContainerNotFound)
    | Some c => (c, None)
    end.

Definition Containers (r : metadataCachingRepository)
  : list ptr * option error :=
  let cs := containers r in
  if decide (length cs = 0%nat) then (cs, Some ErrContainerRepoEmpty)
  else (cs, None).

Definition HostByUUID (r : metadataCachingRepository) (uuid : string)
  : ptr * option error :=
  if decide (size (hostMap r) = 0%nat) then (None, Some ErrHostRepoEmpty)
  else
    match hostMap r !! uuid with
    | None => (None, Some ErrHostNotFound)
    | Some h => (h, None)
    end.

Definition Hosts (r : metadataCachingRepository)
  : list ptr * option error :=
  let hs := hosts r in
  if decide (length hs = 0%nat) then (hs, Some ErrHostRepoEmpty)
  else (hs, None).

(** ** Refreshes *)

(** The four field assignments. *)
Definition assign_containerMap (cm : gmap string ptr)
  (r : metadataCachingRepository) : metadataCachingRepository :=
  mkRepository (containers r) cm (hosts r) (hostMap r).
Definition assign_containers (cs : list ptr)
  (r : metadataCachingRepository) : metadataCachingRepository :=
  mkRepository cs (containerMap r) (hosts r) (hostMap r).
Definition assign_hostMap (hm : gmap string ptr)
  (r : metadataCachingRepository) : metadataCachingRepository :=
  mkRepository (containers r) (containerMap r) (hosts r) hm.
Definition assign_hosts (hs : list ptr)
  (r : metadataCachingRepository) : metadataCachingRepository :=
  mkRepository (containers r) (containerMap r) hs (hostMap r).

(** [for _, x := range xs { m[key(x)] = x }], reading the key through the
    pointer. *)
Definition index_by {A} (key : A → string) (heap : list A) (xs : list ptr)
  : outcome (gmap string ptr) :=
  foldl (λ acc x, m ← acc; o ← deref heap x; Returned (<[key o := x]> m))
        (Returned ∅) xs.

Definition refreshContainers (resp : response Container) (w : World)
  : outcome World :=
  '(w, (cs, err)) ← MetadataContainers resp w;
  match err with
  | Some _ => Returned w
  | None =>
      cm ← index_by Container_Name (container_store w) cs;
      Returned (mkWorld (container_store w) (host_store w)
                  (assign_containers cs (assign_containerMap cm (mcr w))))
  end.

Definition refreshHosts (resp : response Host) (w : World)
  : outcome World :=
  '(w, (hs, err)) ← MetadataHosts resp w;
  match err with
  | Some _ => Returned w
  | None =>
      hm ← index_by Host_UUID (host_store w) hs;
      Returned (mkWorld (container_store w) (host_store w)
                  (assign_hosts hs (assign_hostMap hm (mcr w))))
  end.

(** ** The refresh cycle *)

(** One turn of the loop that sets the host name on a container. *)
Definition enrich (w : World) (c : ptr) : outcome World :=
  o ← deref (container_store w) c;
  let '(h, err) := HostByUUID (mcr w) (Host_UUID (Container_Host o)) in
  match err with
  | None =>
      ho ← deref (host_store w) h;
      match c with
      | Some l =>
          Returned (mkWorld (<[l := set_Host_Name (Host_Name ho) o]> (container_store w))
                      (host_store w) (mcr w))
      | None => Panicked
      end
  | Some _ => Returned w
  end.

(** The body of [cachePopulateEvery] up to the timer.  The two refreshes run
    concurrently in the source and are joined by the wait group; they touch
    disjoint fields and disjoint stores (see [refresh_commute]), so they are
    run here one after the other. *)
Definition cycle (rc : response Container) (rh : response Host) (w : World)
  : outcome World :=
  w ← refreshHosts rh w;
  w ← refreshContainers rc w;
  let '(cs, _) := Containers (mcr w) in
  foldl (λ acc c, w ← acc; enrich w c) (Returned w) cs.

(** [cachePopulateEvery]: a cycle now, and one more each time the timer
    fires; [schedule] lists what the upstream answers in each cycle. *)
Fixpoint cachePopulateEvery
  (schedule : list (response Container * response Host)) (w : World)
  : outcome World :=
  match schedule with
  | [] => Returned w
  | (rc, rh) :: schedule =>
      w ← cycle rc rh w;
      cachePopulateEvery schedule w
  end.

(** The repository as [NewMetadataCachingRepository] builds it, before its
    first cycle. *)
Definition empty_repository : metadataCachingRepository :=
  mkRepository [] ∅ [] ∅.

Definition NewMetadataCachingRepository
  (schedule : list (response Container * response Host)) : outcome World :=
  cachePopulateEvery schedule (mkWorld [] [] empty_repository).

(** What a caller holding the pointers reads through them. *)
Definition read_all {A} (heap : list A) (ps : list ptr) : list (outcome A) :=
  deref heap <$> ps.

(** ** A refresh interleaved with readers

    The commit at the end of [refreshContainers] runs in a goroutine of its
    own: two assignments and a send on the channel the caller waits on.  The
    readers take no lock and are not parties to the channel, so a reader may
    be scheduled before, between or after the two assignments.  The steps
    below are the goroutine's, under the most favourable memory model (each
    assignment is one indivisible step, immediately visible). *)

Inductive commit_pc : Type :=
  | AssignIndex
  | AssignSlice
  | Send.

Definition commit_containers_step (cm : gmap string ptr) (cs : list ptr)
  (s : commit_pc * metadataCachingRepository)
  : option (commit_pc * metadataCachingRepository) :=
  match s.1 with
  | AssignIndex => Some (AssignSlice, assign_containerMap cm s.2)
  | AssignSlice => Some (Send, assign_containers cs s.2)
  | Send => None
  end.

Definition commit_hosts_step (hm : gmap string ptr) (hs : list ptr)
  (s : commit_pc * metadataCachingRepository)
  : option (commit_pc * metadataCachingRepository) :=
  match s.1 with
  | AssignIndex => Some (AssignSlice, assign_hostMap hm s.2)
  | AssignSlice => Some (Send, assign_hosts hs s.2)
  | Send => None
  end.

(** The repositories a reader can be scheduled in while the commit runs. *)
Inductive during {S} (step : S → option S) : S → S → Prop :=
  | during_now s : during step s s
  | during_later s s' s'' :
      step s = Some s' → during step s' s'' → during step s s''.

(** What one reader sees of the container kind when it asks for the whole
    collection and for one name. *)
Definition read_containers (r : metadataCachingRepository) (name : string)
  : (list ptr * option error) * (ptr * option error) :=
  (Containers r, ContainerByName r name).

Definition read_hosts (r : metadataCachingRepository) (uuid : string)
  : (list ptr * option error) * (ptr * option error) :=
  (Hosts r, HostByUUID r uuid).

(** ** Specification-side notions used by the theorems *)

(** A pointer that can be dereferenced. *)
Definition valid {A} (heap : list A) (p : ptr) : Prop :=
  ∃ l, p = Some l ∧ (l < length heap)%nat.

(** Well-formed worlds: every published pointer can be dereferenced and
    every pointer of an index is in its collection. *)
Record wf (w : World) : Prop := mkWf {
  wf_containers : Forall (valid (container_store w)) (containers (mcr w));
  wf_containerMap :
    map_Forall (λ _ p, p ∈ containers (mcr w)) (containerMap (mcr w));
  wf_hosts : Forall (valid (host_store w)) (hosts (mcr w));
  wf_hostMap : map_Forall (λ _ p, p ∈ hosts (mcr w)) (hostMap (mcr w))
}.

(** The container [o] as the enrichment loop leaves it, for a repository
    [r] and a host store [hs]. *)
Definition enriched (r : metadataCachingRepository) (hs : list Host)
  (o : Container) : Container :=
  match HostByUUID r (Host_UUID (Container_Host o)) with
  | (h, None) =>
      match deref hs h with
      | Returned ho => set_Host_Name (Host_Name ho) o
      | Panicked => o
      end
  | (_, Some _) => o
  end.

(** The fields of a container that come from the upstream. *)
Definition same_upstream_fields (c c' : Container) : Prop :=
  Container_Name c' = Container_Name c ∧
  Container_State c' = Container_State c ∧
  Container_PrivateIP c' = Container_PrivateIP c ∧
  Container_ServiceIndex c' = Container_ServiceIndex c ∧
  Host_UUID (Container_Host c') = Host_UUID (Container_Host c).

(** The objects a call of the client puts in the store. *)
Definition delivered {A} (r : response A) : list A :=
  match r with
  | Delivers items => omap id items
  | _ => []
  end.

(** The pointers to [n] cells allocated from cell [base] on. *)
Definition cells (base n : nat) : list ptr := Some <$> seq base n.

(** A container as the decoder makes it: [new(Container)] filled in by
    [UnmarshalJSON]. *)
Definition decoded (c : Container) : Prop :=
  ∃ b, Container_UnmarshalJSON zero_Container b = Returned (c, None).

Definition failure {A} (r : response A) : Prop :=
  match r with
  | Fails _ => True
  | _ => False
  end.

(** [last_with key vs k i v]: [v] is the last element of [vs] whose key is
    [k], and it stands at position [i]. *)
Definition last_with {A} (key : A → string) (vs : list A) (k : string)
  (i : nat) (v : A) : Prop :=
  vs !! i = Some v ∧ key v = k ∧
  ∀ j v', (i < j)%nat → vs !! j = Some v' → key v' ≠ k.

(** A response on which the client neither panics nor hands out a nil
    pointer. *)
Definition clean {A} (r : response A) : Prop :=
  match r with
  | Fails _ => True
  | Crashes => False
  | Delivers items => Forall is_Some items
  end.

(** The pointers a refresh publishes for a response: the fresh cells when
    the fetch delivers, the collection [old] it leaves in place otherwise. *)
Definition published {A} (base : nat) (r : response A) (old : list ptr)
  : list ptr :=
  match r with
  | Delivers items => cells base (length items)
  | _ => old
  end.

(** The containers and the hosts a caller reads through the pointers that
    [Containers] and [Hosts] return. *)
Definition container_snapshot (w : World) : list (outcome Container) :=
  read_all (container_store w) (Containers (mcr w)).1.
Definition host_snapshot (w : World) : list (outcome Host) :=
  read_all (host_store w) (Hosts (mcr w)).1.

(** Every container of the snapshot carries the name of every host of the
    snapshot that has its host UUID. *)
Definition named_after_every_match (w : World) : Prop :=
  ∀ c h, Returned c ∈ container_snapshot w → Returned h ∈ host_snapshot w →
         Host_UUID (Container_Host c) = Host_UUID h →
         Host_Name (Container_Host c) = Host_Name h.

(** ** The client side: decoding the upstream payload

    [decodeMetadataContainersResponse] and [decodeMetadataHostsResponse]
    hand the body of the upstream's answer to [json.NewDecoder(..).Decode]
    with a nil [[]*Container] (resp. [[]*Host]) as target. *)

(** What [Decode] reads of the body of an HTTP message.  The decoder
    skips white space, reads one JSON value and leaves what follows that
    value unread.  So a body is told by how it begins: [empty_body] holds
    no value, it is empty or white space only, and the decoder reports
    [io.EOF]; [body_bytes None] does not begin with the text of a JSON
    value (its bytes are no such text or stop short of its end), and the
    decoder reports a syntax error or [io.ErrUnexpectedEOF];
    [body_bytes (Some v)] begins with the text of the value [v], whatever
    bytes come after it. *)
Inductive message_body : Type :=
  | empty_body
  | body_bytes (b : raw).

(** [encoding/json] decoding the elements of an array into a slice of
    pointers: a [null] element is a nil pointer; any other element is
    handed to the [UnmarshalJSON] of a fresh zero object, and the first
    error ends the decoding. *)
Fixpoint decode_slice {A} (unmarshal : raw → outcome (A * option error))
  (items : list json) : outcome (list (option A) * option error) :=
  match items with
  | [] => Returned ([], None)
  | JNull :: items =>
      '(ps, err) ← decode_slice unmarshal items;
      Returned (None :: ps, err)
  | v :: items =>
      '(o, err) ← unmarshal (Some v);
      match err with
      | Some e => Returned ([], Some e)
      | None =>
          '(ps, err) ← decode_slice unmarshal items;
          Returned (Some o :: ps, err)
      end
  end.

(** [Decode] into a nil slice of pointers, then the function's own test of
    the error: a body without a value is [io.EOF], a body that does not
    begin with a JSON value a syntax error, a first value [null] leaves the
    slice nil, and a first value that is no array is a type error. *)
Definition decode_response {A} (unmarshal : raw → outcome (A * option error))
  (b : message_body) : response A :=
  match b with
  | empty_body => Fails ErrDecode
  | body_bytes None => Fails ErrDecode
  | body_bytes (Some JNull) => Delivers []
  | body_bytes (Some (JArray items)) =>
      match decode_slice unmarshal items with
      | Panicked => Crashes
      | Returned (_, Some e) => Fails e
      | Returned (ps, None) => Delivers ps
      end
  | body_bytes (Some _) => Fails ErrDecode
  end.

Definition decodeMetadataContainersResponse (b : message_body)
  : response Container :=
  decode_response (Container_UnmarshalJSON zero_Container) b.

Definition decodeMetadataHostsResponse (b : message_body) : response Host :=
  decode_response (Host_UnmarshalJSON zero_Host) b.

(** ** The server side: service, endpoints and HTTP transport *)

(** [serverService.Container] and [serverService.Containers]: on an error
    the pointer, resp. the slice, handed on is nil. *)
Definition serverService_Container (r : metadataCachingRepository)
  (name : string) : ptr * option error :=
  let '(c, err) := ContainerByName r name in
  match err with
  | Some e => (None, Some e)
  | None => (c, None)
  end.

Definition serverService_Containers (r : metadataCachingRepository)
  : list ptr * option error :=
  let '(cs, err) := Containers r in
  match err with
  | Some e => ([], Some e)
  | None => (cs, None)
  end.

Record containerRequest : Type := mkContainerRequest {
  containerRequest_Name : string
}.

Inductive containersRequest : Type := mkContainersRequest.

(** The two response models of the endpoints, with their [Err] field. *)
Inductive endpoint_response : Type :=
  | containerResponse (c : ptr) (Err : option error)
  | containersResponse (cs : list ptr) (Err : option error).

(** The [error()] method of both response models. *)
Definition response_error (resp : endpoint_response) : option error :=
  match resp with
  | containerResponse _ Err => Err
  | containersResponse _ Err => Err
  end.

(** Go [error] values at the transport: the errors of the package and of
    the decoder, which [encodeHTTPError] tells apart by identity, and the
    errors made on the spot by [errors.New], known by their text only. *)
Inductive go_error : Type :=
  | known (e : error)
  | errors_New (msg : string).

(** [err.Error() == "EOF"]: only [io.EOF] reads so. *)
Definition Error_is_EOF (e : go_error) : bool :=
  match e with
  | errors_New msg => String.eqb msg "EOF"
  | known _ => false
  end.

(** The endpoints never return an error of their own: the business error
    travels in the response. *)
Definition ContainerEndpoint (r : metadataCachingRepository)
  (request : containerRequest) : endpoint_response * option go_error :=
  let '(c, err) := serverService_Container r (containerRequest_Name request) in
  (containerResponse c err, None).

Definition ContainersEndpoint (r : metadataCachingRepository)
  (request : containersRequest) : endpoint_response * option go_error :=
  let '(cs, err) := serverService_Containers r in
  (containersResponse cs err, None).

(** What a handler is given: the [name] variable of the matched route (the
    empty string when the route has none) and the body, as a decoder reads
    it. *)
Record http_request : Type := mkRequest {
  vars_name : string;
  request_body : message_body
}.

(** What a handler writes: the status, the content type and the value
    whose JSON encoding is the body. *)
Inductive reply_body : Type :=
  | ErrorBody (e : go_error)
  | ResponseBody (resp : endpoint_response).

Record reply : Type := mkReply {
  status : Z;
  content_type : string;
  body : reply_body
}.

(** [json.NewDecoder(r.Body).Decode(&req)] for a struct without fields:
    a first value that is an object or [null] is accepted, whatever the
    object holds (its members are skipped, not stored) and whatever
    follows the value; a body without a value gives [io.EOF], whose text
    is "EOF". *)
Definition json_Decode_struct (b : message_body) : option go_error :=
  match b with
  | empty_body => Some (errors_New "EOF")
  | body_bytes None => Some (known ErrDecode)
  | body_bytes (Some (JObject _)) => None
  | body_bytes (Some JNull) => None
  | body_bytes (Some _) => Some (known ErrDecode)
  end.

Definition DecodeHTTPContainersRequest (r : http_request)
  : containersRequest + go_error :=
  match json_Decode_struct (request_body r) with
  | Some err =>
      if negb (Error_is_EOF err) then inr err else inl mkContainersRequest
  | None => inl mkContainersRequest
  end.

Definition DecodeHTTPContainerRequest (r : http_request)
  : containerRequest + go_error :=
  let name := vars_name r in
  if String.eqb name "" then
    inr (errors_New "failed to extract container name from URL")
  else inl (mkContainerRequest name).

Definition encodeHTTPError (err : option go_error) : outcome reply :=
  match err with
  | None => Panicked
  | Some e =>
      let Status :=
        match e with
        | known ErrContainerNotFound | known ErrHostNotFound => 404%Z
        | known ErrContainerRepoEmpty | known ErrHostRepoEmpty => 424%Z
        | _ => 500%Z
        end in
      Returned (mkReply Status "application/json; charset=utf-8" (ErrorBody e))
  end.

(** A response that carries an error is written by [encodeHTTPError] and
    the function returns nil; any other is encoded as it is, with the
    status a handler has when it never sets one. *)
Definition EncodeHTTPGenericResponse (response : endpoint_response)
  : outcome (reply * option go_error) :=
  match response_error response with
  | Some e =>
      rep ← encodeHTTPError (Some (known e));
      Returned (rep, None)
  | None =>
      Returned (mkReply 200%Z "application/json; charset=utf-8"
                  (ResponseBody response), None)
  end.

(** The go-kit server that [MakeHTTPHandlers] builds from a decoder, an
    endpoint, an encoder and the error encoder: each stage's error goes to
    the error encoder and ends the request. *)
Definition kithttp_Server {Req}
  (e : Req → endpoint_response * option go_error)
  (dec : http_request → Req + go_error)
  (enc : endpoint_response → outcome (reply * option go_error))
  (errorEncoder : option go_error → outcome reply)
  (r : http_request) : outcome reply :=
  match dec r with
  | inr err => errorEncoder (Some err)
  | inl request =>
      match e request with
      | (_, Some err) => errorEncoder (Some err)
      | (response, None) =>
          '(rep, err) ← enc response;
          match err with
          | Some err => errorEncoder (Some err)
          | None => Returned rep
          end
      end
  end.

(** The two handlers of [MakeHTTPHandlers], over the repository as it is
    when the request comes in.  The tracing, logging and instrumenting
    wrappers around the service and the endpoints return what they wrap. *)
Definition HTTPHandlers_Containers (r : metadataCachingRepository)
  : http_request → outcome reply :=
  kithttp_Server (ContainersEndpoint r) DecodeHTTPContainersRequest
    EncodeHTTPGenericResponse encodeHTTPError.

Definition HTTPHandlers_Container (r : metadataCachingRepository)
  : http_request → outcome reply :=
  kithttp_Server (ContainerEndpoint r) DecodeHTTPContainerRequest
    EncodeHTTPGenericResponse encodeHTTPError.

(** ** Further specification-side notions *)

(** [keyed key heap coll idx]: every binding of the index leads to an
    object of the collection that carries the key it is bound under, and
    every pointer of the collection leads to an object whose key is bound
    in the index. *)
Definition keyed {A} (key : A → string) (heap : list A) (coll : list ptr)
  (idx : gmap string ptr) : Prop :=
  (∀ k p, idx !! k = Some p →
     p ∈ coll ∧ ∃ l v, p = Some l ∧ heap !! l = Some v ∧ key v = k) ∧
  (∀ p, p ∈ coll →
     ∃ l v, p = Some l ∧ heap !! l = Some v ∧ is_Some (idx !! key v)).

Definition consistent (w : World) : Prop :=
  keyed Container_Name (container_store w) (containers (mcr w))
    (containerMap (mcr w)) ∧
  keyed Host_UUID (host_store w) (hosts (mcr w)) (hostMap (mcr w)).

(** [decodes_to unmarshal j v]: the element [j] of a payload array becomes
    the slice element [v], a nil pointer for [null] and otherwise a pointer
    to the object that [unmarshal] makes of it without an error. *)
Definition decodes_to {A} (unmarshal : raw → outcome (A * option error))
  (j : json) (v : option A) : Prop :=
  match v with
  | None => j = JNull
  | Some o => j ≠ JNull ∧ unmarshal (Some j) = Returned (o, None)
  end.

(** The value of a member is a JSON string. *)
Definition is_string (v : json) : Prop := ∃ s, v = JString s.

(** The members of an object that [Container.UnmarshalJSON] goes through
    without a failed type assertion, and those for [Host.UnmarshalJSON]. *)
Definition container_members_ok (data : gmap string json) : Prop :=
  is_string (index data "name") ∧
  is_string (index data "state") ∧
  is_string (index data "primary_ip") ∧
  (index data "service_index" = JNull ∨ is_string (index data "service_index")) ∧
  (index data "host_uuid" = JNull ∨ is_string (index data "host_uuid")).

Definition host_members_ok (data : gmap string json) : Prop :=
  is_string (index data "uuid") ∧ is_string (index data "name").

(** The member is missing from the object or is [null]. *)
Definition absent_or_null (data : gmap string json) (k : string) : Prop :=
  data !! k = None ∨ data !! k = Some JNull.

(** Case analysis on the member [k] of the decoded map. *)
Ltac case_member data k :=
  let E := fresh "E" in destruct (index data k) eqn:E; simpl; try done.

(** * Checks on concrete inputs *)
Example unmarshal_scenario :
  Container_UnmarshalJSON zero_Container
    (Some (JObject [("name", JString "a"); ("state", JString "running");
                    ("primary_ip", JString "10.0.0.1");
                    ("host_uuid", JString "H1")]))
  = Returned (mkContainer "a" "running" "10.0.0.1" 0 (mkHost "H1" ""), None).
Proof. reflexivity. Qed.

Example unmarshal_service_index :
  Container_UnmarshalJSON zero_Container
    (Some (JObject [("name", JString "a"); ("state", JString "running");
                    ("primary_ip", JString "10.0.0.1");
                    ("service_index", JString "2")]))
  = Returned (mkContainer "a" "running" "10.0.0.1" 2 (mkHost "" ""), None).
Proof. vm_compute. reflexivity. Qed.

Example scenario_enrichment :
  (w ← NewMetadataCachingRepository
         [(Delivers [Some (mkContainer "a" "running" "10.0.0.1" 0 (mkHost "H1" ""))],
           Delivers [Some (mkHost "H1" "host-1")])];
   deref (container_store w) (ContainerByName (mcr w) "a").1)
  = Returned (mkContainer "a" "running" "10.0.0.1" 0 (mkHost "H1" "host-1")).
Proof. vm_compute. reflexivity. Qed.


(** * Facts about [strconv.ParseInt] *)

Section strconv_facts.
Import strconv.











(** What the caller keeps when the string is out of range or no number:
    it drops the error, so it keeps the clamped value or zero. *)
Example ParseInt_too_large :
  ParseInt "9223372036854775808" = (9223372036854775807, Some ErrRange).
Proof. vm_compute. reflexivity. Qed.

Example ParseInt_no_number : ParseInt "1x" = (0, Some ErrSyntax).
Proof. vm_compute. reflexivity. Qed.

Example ParseInt_min : ParseInt "-9223372036854775808" = (-9223372036854775808, None).
Proof. vm_compute. reflexivity. Qed.

End strconv_facts.

(** [ParseFloat] around the largest [float64], on the inputs of the
    library's own test table: the largest [float64] and the last literal
    that rounds to it are accepted; the next one and anything larger are
    range errors; a literal that underflows is no error. *)
Example ParseFloat_ok_border :
  strconv.ParseFloat_ok "1.7976931348623157e308" = true ∧
  strconv.ParseFloat_ok "1.7976931348623158e308" = true ∧
  strconv.ParseFloat_ok "1.797693134862315808e308" = false ∧
  strconv.ParseFloat_ok "1.7976931348623159e308" = false ∧
  strconv.ParseFloat_ok "-1E+400" = false ∧
  strconv.ParseFloat_ok "1e999" = false ∧
  strconv.ParseFloat_ok "1e-350" = true ∧
  strconv.ParseFloat_ok "0e999" = true ∧
  strconv.ParseFloat_ok "-12.50e-3" = true.
Proof. split_and!; vm_compute; reflexivity. Qed.


(** * Facts about the decoders *)

(** [json.Unmarshal] on an object: the map, or the error of a number that
    cannot be stored. *)
Lemma json_Unmarshal_map_representable members :
  representable (JObject members) = true →
  json_Unmarshal_map (Some (JObject members))
  = ((json_Unmarshal_map (Some (JObject members))).1, None).
Proof. intros H. unfold json_Unmarshal_map. by rewrite H. Qed.

Lemma json_Unmarshal_map_unrepresentable members :
  representable (JObject members) = false →
  json_Unmarshal_map (Some (JObject members)) = (∅, Some ErrDecode).
Proof. intros H. unfold json_Unmarshal_map. by rewrite H. Qed.

Lemma absent_or_null_index data k :
  absent_or_null data k ↔ index data k = JNull.
Proof.
  unfold absent_or_null, index. destruct (data !! k) as [v|]; simpl.
  - split; [intros [?|?]; congruence | intros ->; by right].
  - split; [done | by left].
Qed.

Lemma index_lookup data k v : data !! k = Some v → index data k = v.
Proof. unfold index. by intros ->. Qed.

(** [UnmarshalJSON] never writes the host name of its receiver. *)
Lemma Container_UnmarshalJSON_Host_Name c b c' e :
  Container_UnmarshalJSON c b = Returned (c', e) →
  Host_Name (Container_Host c') = Host_Name (Container_Host c).
Proof.
  unfold Container_UnmarshalJSON.
  destruct (json_Unmarshal_map b) as [data [err|]].
  { intros ?; by simplify_eq/=. }
  case_member data "name". case_member data "state".
  case_member data "primary_ip".
  case_member data "service_index"; case_member data "host_uuid";
    intros ?; by simplify_eq/=.
Qed.

Lemma decoded_Host_Name c : decoded c → Host_Name (Container_Host c) = "".
Proof. intros [b Hb]. by apply Container_UnmarshalJSON_Host_Name in Hb. Qed.

(** The decoder on an object whose three required members are strings and
    whose two optional members are strings, [null] or missing. *)
Lemma Container_UnmarshalJSON_object c members name state ip :
  let data := (json_Unmarshal_map (Some (JObject members))).1 in
  representable (JObject members) = true →
  data !! "name" = Some (JString name) →
  data !! "state" = Some (JString state) →
  data !! "primary_ip" = Some (JString ip) →
  (absent_or_null data "service_index" ∨
   ∃ s, data !! "service_index" = Some (JString s)) →
  (absent_or_null data "host_uuid" ∨
   ∃ s, data !! "host_uuid" = Some (JString s)) →
  Container_UnmarshalJSON c (Some (JObject members)) =
  Returned
    (mkContainer name state ip
       (match index data "service_index" with
        | JString s => (strconv.ParseInt s).1
        | _ => Container_ServiceIndex c
        end)
       (mkHost
          (match index data "host_uuid" with
           | JString s => s
           | _ => Host_UUID (Container_Host c)
           end)
          (Host_Name (Container_Host c))), None).
Proof.
  intros data Hrep Hn Hs Hi Hsi Hhu. destruct c as [? ? ? ? [? ?]].
  unfold Container_UnmarshalJSON.
  rewrite (json_Unmarshal_map_representable _ Hrep). fold data.
  cbv iota beta.
  rewrite (index_lookup _ _ _ Hn), (index_lookup _ _ _ Hs),
    (index_lookup _ _ _ Hi). simpl.
  destruct Hsi as [Hsi%absent_or_null_index|[s Hsi%index_lookup]];
    destruct Hhu as [Hhu%absent_or_null_index|[u Hhu%index_lookup]];
    rewrite Hsi, Hhu; simpl; done.
Qed.

Lemma Container_UnmarshalJSON_panics c members k :
  let data := (json_Unmarshal_map (Some (JObject members))).1 in
  representable (JObject members) = true →
  k ∈ ["name"; "state"; "primary_ip"] →
  (∀ s, index data k ≠ JString s) →
  Container_UnmarshalJSON c (Some (JObject members)) = Panicked.
Proof.
  intros data Hrep Hk Hns.
  unfold Container_UnmarshalJSON.
  rewrite (json_Unmarshal_map_representable _ Hrep). fold data.
  cbv iota beta.
  set_unfold. destruct Hk as [->|[->|[->|[]]]].
  - by case_member data "name"; destruct (Hns s).
  - case_member data "name".
    by case_member data "state"; destruct (Hns s0).
  - case_member data "name". case_member data "state".
    by case_member data "primary_ip"; destruct (Hns s1).
Qed.

Lemma Host_UnmarshalJSON_panics h members k :
  let data := (json_Unmarshal_map (Some (JObject members))).1 in
  representable (JObject members) = true →
  k ∈ ["uuid"; "name"] →
  (∀ s, index data k ≠ JString s) →
  Host_UnmarshalJSON h (Some (JObject members)) = Panicked.
Proof.
  intros data Hrep Hk Hns.
  unfold Host_UnmarshalJSON.
  rewrite (json_Unmarshal_map_representable _ Hrep). fold data.
  cbv iota beta.
  set_unfold. destruct Hk as [->|[->|[]]].
  - by case_member data "uuid"; destruct (Hns s).
  - case_member data "uuid".
    by case_member data "name"; destruct (Hns s0).
Qed.




(** C10.  There are JSON objects on which the decoders fault instead of
    returning an error: a container object without a name, a state or a
    private IP, or with a number where the name, the service index or the
    host identifier should be a string, makes [Container.UnmarshalJSON]
    panic on a type assertion, whatever the receiver holds; a host object
    without a uuid or without a name does the same to
    [Host.UnmarshalJSON]. *)
Theorem UnmarshalJSON_faults :
  let n := ("name", JString "a") in
  let s := ("state", JString "running") in
  let i := ("primary_ip", JString "10.0.0.1") in
  (∀ c, Container_UnmarshalJSON c (Some (JObject [s; i])) = Panicked) ∧
  (∀ c, Container_UnmarshalJSON c (Some (JObject [n; i])) = Panicked) ∧
  (∀ c, Container_UnmarshalJSON c (Some (JObject [n; s])) = Panicked) ∧
  (∀ c, Container_UnmarshalJSON c
          (Some (JObject [("name", JNumber "1"); s; i])) = Panicked) ∧
  (∀ c, Container_UnmarshalJSON c
          (Some (JObject [n; s; i; ("service_index", JNumber "2")]))
        = Panicked) ∧
  (∀ c, Container_UnmarshalJSON c
          (Some (JObject [n; s; i; ("host_uuid", JNumber "7")]))
        = Panicked) ∧
  (∀ h, Host_UnmarshalJSON h (Some (JObject [("name", JString "host-1")]))
        = Panicked) ∧
  (∀ h, Host_UnmarshalJSON h (Some (JObject [("uuid", JString "H1")]))
        = Panicked) ∧
  (∀ c, Container_UnmarshalJSON c (Some (JObject [])) = Panicked) ∧
  (∀ c, Container_UnmarshalJSON c None = Returned (c, Some ErrDecode)).
Proof.
  intros n s i. split_and!; intros x; vm_compute; reflexivity.
Qed.

(** * Facts about the store and the lookups *)

Local Open Scope nat_scope.
Local Open Scope list_scope.

Lemma bind_Returned {A B} (f : A → outcome B) (m : outcome A) (b : B) :
  m ≫= f = Returned b ↔ ∃ a, m = Returned a ∧ f a = Returned b.
Proof.
  destruct m as [a|]; simpl.
  - split; [eauto | by intros (a' & [= <-] & ?)].
  - split; [done | by intros (? & ? & ?)].
Qed.

Lemma deref_Some {A} (heap : list A) l v :
  heap !! l = Some v → deref heap (Some l) = Returned v.
Proof. simpl. by intros ->. Qed.

Lemma valid_deref {A} (heap : list A) p :
  valid heap p ↔ ∃ v, deref heap p = Returned v.
Proof.
  split.
  - intros (l & -> & Hl). apply lookup_lt_is_Some_2 in Hl as [v Hv].
    exists v. by apply deref_Some.
  - destruct p as [l|]; simpl; [|by intros [? ?]].
    destruct (heap !! l) as [v|] eqn:E; [|by intros [? ?]].
    intros _. exists l. split; [done|]. by apply lookup_lt_Some in E.
Qed.

Lemma valid_app {A} (heap extra : list A) p :
  valid heap p → valid (heap ++ extra) p.
Proof. intros (l & -> & Hl). exists l. rewrite length_app. split; [done|lia]. Qed.

Lemma cells_S base n : cells base (S n) = Some base :: cells (S base) n.
Proof. done. Qed.

Lemma cells_lookup base n i :
  cells base n !! i = if decide (i < n) then Some (Some (base + i)) else None.
Proof.
  unfold cells. rewrite list_lookup_fmap. case_decide.
  - by rewrite lookup_seq_lt.
  - by rewrite lookup_seq_ge by lia.
Qed.

Lemma elem_of_cells base n p :
  p ∈ cells base n ↔ ∃ i, p = Some (base + i) ∧ i < n.
Proof.
  unfold cells. rewrite list_elem_of_fmap. split.
  - intros (l & -> & Hl). apply elem_of_seq in Hl.
    exists (l - base). split; [f_equal|]; lia.
  - intros (i & -> & Hi). exists (base + i). split; [done|].
    apply elem_of_seq. lia.
Qed.

Lemma cells_valid {A} (heap extra : list A) :
  Forall (valid (heap ++ extra)) (cells (length heap) (length extra)).
Proof.
  apply Forall_forall. intros p (i & -> & Hi)%elem_of_cells.
  exists (length heap + i). rewrite length_app. split; [done|lia].
Qed.

(** The decoder allocates one cell per element, in order. *)
Lemma new_objects_Some {A} (heap vs : list A) :
  new_objects heap (Some <$> vs)
  = ((heap ++ vs)%list, cells (length heap) (length vs)).
Proof.
  revert heap. induction vs as [|v vs IH]; intros heap; simpl.
  - by rewrite app_nil_r.
  - rewrite IH, <- app_assoc, length_app. simpl.
    by rewrite cells_S, Nat.add_1_r.
Qed.

Lemma clean_Delivers {A} (items : list (option A)) :
  Forall is_Some items → ∃ vs, items = Some <$> vs.
Proof.
  induction 1 as [|x items [v ->] _ [vs ->]].
  - by exists [].
  - by exists (v :: vs).
Qed.

(** ** Lookups *)

Lemma size_zero_empty (m : gmap string ptr) : size m = 0 ↔ m = ∅.
Proof. apply map_size_empty_iff. Qed.

(** C3.  [ContainerByName] returns the repository-empty error when the
    container index is empty, whatever the name.  When the index is not
    empty it returns the not-found error exactly when the name is absent
    from the index, and otherwise the container stored under the name with
    no error; in particular the empty name on a populated index that does
    not hold it gives not-found, not repository-empty. *)
Theorem ContainerByName_spec (r : metadataCachingRepository) (name : string) :
  (containerMap r = ∅ →
   ContainerByName r name = (None, Some ErrContainerRepoEmpty)) ∧
  (containerMap r ≠ ∅ →
   (ContainerByName r name = (None, Some ErrContainerNotFound)
    ↔ containerMap r !! name = None) ∧
   (∀ c, containerMap r !! name = Some c → ContainerByName r name = (c, None)) ∧
   ContainerByName r name ≠ (None, Some ErrContainerRepoEmpty)) ∧
  (containerMap r ≠ ∅ → containerMap r !! "" = None →
   ContainerByName r "" = (None, Some ErrContainerNotFound)).
Proof.
  unfold ContainerByName. split_and!.
  - intros ->. by rewrite map_size_empty.
  - intros Hne. rewrite decide_False by by rewrite size_zero_empty.
    destruct (containerMap r !! name) as [c|] eqn:E.
    + split_and!; [split; intros ?; simplify_eq | by intros ? [= ->] | by intros ?].
    + split_and!; [done | done | by intros ?].
  - intros Hne Hno. rewrite decide_False by by rewrite size_zero_empty.
    by rewrite Hno.
Qed.

Lemma ContainerByName_spec_witness :
  ContainerByName (mkRepository [Some 0] {[ "a" := Some 0 ]} [] ∅) ""
  = (None, Some ErrContainerNotFound).
Proof.
  apply (ContainerByName_spec (mkRepository [Some 0] {[ "a" := Some 0 ]} [] ∅) "").
  - simpl. intros H. apply (f_equal (λ m : gmap string ptr, m !! "a")) in H.
    vm_compute in H. discriminate H.
  - vm_compute. reflexivity.
Defined.

(** ** Failed fetches *)

Lemma refreshContainers_Fails e w : refreshContainers (Fails e) w = Returned w.
Proof. done. Qed.

Lemma refreshHosts_Fails e w : refreshHosts (Fails e) w = Returned w.
Proof. done. Qed.

Lemma MetadataContainers_error resp w w1 cs e :
  MetadataContainers resp w = Returned (w1, (cs, Some e)) →
  resp = Fails e ∧ w1 = w ∧ cs = [].
Proof.
  destruct resp as [e'| |items]; simpl; [|done|].
  - by intros [= <- <- <-].
  - destruct (new_objects _ _). by intros ?.
Qed.

Lemma MetadataHosts_error resp w w1 hs e :
  MetadataHosts resp w = Returned (w1, (hs, Some e)) →
  resp = Fails e ∧ w1 = w ∧ hs = [].
Proof.
  destruct resp as [e'| |items]; simpl; [|done|].
  - by intros [= <- <- <-].
  - destruct (new_objects _ _). by intros ?.
Qed.

(** C1.  When the fetch a refresh makes returns an error, the refresh
    returns normally and leaves the whole state as it was: the collection,
    its index and the objects they point to.  Every lookup therefore
    answers after the call what it answered before, and the refresh itself
    hands no error to anyone. *)
Theorem refresh_failure_keeps_snapshot rc rh w wc cs ec wh hs eh :
  MetadataContainers rc w = Returned (wc, (cs, Some ec)) →
  MetadataHosts rh w = Returned (wh, (hs, Some eh)) →
  refreshContainers rc w = Returned w ∧
  refreshHosts rh w = Returned w ∧
  ∀ w', refreshContainers rc w = Returned w' ∨ refreshHosts rh w = Returned w' →
    containers (mcr w') = containers (mcr w) ∧
    containerMap (mcr w') = containerMap (mcr w) ∧
    hosts (mcr w') = hosts (mcr w) ∧
    hostMap (mcr w') = hostMap (mcr w) ∧
    Containers (mcr w') = Containers (mcr w) ∧
    Hosts (mcr w') = Hosts (mcr w) ∧
    (∀ name, ContainerByName (mcr w') name = ContainerByName (mcr w) name) ∧
    (∀ uuid, HostByUUID (mcr w') uuid = HostByUUID (mcr w) uuid) ∧
    container_store w' = container_store w ∧
    host_store w' = host_store w.
Proof.
  intros (-> & _ & _)%MetadataContainers_error (-> & _ & _)%MetadataHosts_error.
  rewrite refreshContainers_Fails, refreshHosts_Fails.
  split_and!; [done..|]. by intros w' [[= <-]|[= <-]].
Qed.

Lemma refresh_failure_keeps_snapshot_witness :
  refreshContainers (Fails ErrTransport)
    (mkWorld [mkContainer "a" "running" "10.0.0.1" 0 (mkHost "H1" "")] []
       (mkRepository [Some 0] {[ "a" := Some 0 ]} [] ∅))
  = Returned
      (mkWorld [mkContainer "a" "running" "10.0.0.1" 0 (mkHost "H1" "")] []
         (mkRepository [Some 0] {[ "a" := Some 0 ]} [] ∅)) ∧
  refreshHosts (Fails ErrDecode)
    (mkWorld [mkContainer "a" "running" "10.0.0.1" 0 (mkHost "H1" "")] []
       (mkRepository [Some 0] {[ "a" := Some 0 ]} [] ∅))
  = Returned
      (mkWorld [mkContainer "a" "running" "10.0.0.1" 0 (mkHost "H1" "")] []
         (mkRepository [Some 0] {[ "a" := Some 0 ]} [] ∅)).
Proof.
  destruct (refresh_failure_keeps_snapshot
              (Fails ErrTransport) (Fails ErrDecode)
              (mkWorld [mkContainer "a" "running" "10.0.0.1" 0 (mkHost "H1" "")] []
                 (mkRepository [Some 0] {[ "a" := Some 0 ]} [] ∅))
              (mkWorld [mkContainer "a" "running" "10.0.0.1" 0 (mkHost "H1" "")] []
                 (mkRepository [Some 0] {[ "a" := Some 0 ]} [] ∅))
              [] ErrTransport
              (mkWorld [mkContainer "a" "running" "10.0.0.1" 0 (mkHost "H1" "")] []
                 (mkRepository [Some 0] {[ "a" := Some 0 ]} [] ∅))
              [] ErrDecode) as (Hc & Hh & _).
  - reflexivity.
  - reflexivity.
  - split; [exact Hc | exact Hh].
Defined.

(** ** Bulk lookups *)

Lemma cycle_failures rc rh w :
  failure rc → failure rh → containers (mcr w) = [] →
  cycle rc rh w = Returned w.
Proof.
  destruct rc as [ec| |]; [|done..]. destruct rh as [eh| |]; [|done..].
  intros _ _ Hcs. unfold cycle. rewrite refreshHosts_Fails. simpl.
  unfold Containers. by rewrite Hcs.
Qed.

Lemma cachePopulateEvery_failures schedule w :
  Forall (λ rr, failure rr.1 ∧ failure rr.2) schedule →
  containers (mcr w) = [] →
  cachePopulateEvery schedule w = Returned w.
Proof.
  induction 1 as [|[rc rh] schedule [Hc Hh] _ IH]; intros Hcs; simpl; [done|].
  rewrite cycle_failures by done. simpl. by apply IH.
Qed.

(** C4.  [Containers] and [Hosts] return the repository-empty error exactly
    when the current collection has length zero, and the whole collection
    with no error otherwise.  The collection is empty as long as every fetch
    has failed since the repository was built, and also after a fetch that
    succeeded with zero entities. *)
Theorem Containers_Hosts_empty_iff (r : metadataCachingRepository) :
  ((Containers r).1 = containers r ∧
   ((Containers r).2 = Some ErrContainerRepoEmpty ↔ length (containers r) = 0) ∧
   (length (containers r) ≠ 0 → Containers r = (containers r, None))) ∧
  ((Hosts r).1 = hosts r ∧
   ((Hosts r).2 = Some ErrHostRepoEmpty ↔ length (hosts r) = 0) ∧
   (length (hosts r) ≠ 0 → Hosts r = (hosts r, None))) ∧
  (∀ schedule,
     Forall (λ rr, failure rr.1 ∧ failure rr.2) schedule →
     ∃ w, NewMetadataCachingRepository schedule = Returned w ∧
          Containers (mcr w) = ([], Some ErrContainerRepoEmpty) ∧
          Hosts (mcr w) = ([], Some ErrHostRepoEmpty)) ∧
  (∀ w, ∃ w', refreshContainers (Delivers []) w = Returned w' ∧
              Containers (mcr w') = ([], Some ErrContainerRepoEmpty)) ∧
  (∀ w, ∃ w', refreshHosts (Delivers []) w = Returned w' ∧
              Hosts (mcr w') = ([], Some ErrHostRepoEmpty)).
Proof.
  split_and!.
  - unfold Containers. by case_decide.
  - unfold Containers. case_decide; simpl; [done|]. split; [done|lia].
  - intros Hne. unfold Containers. by rewrite decide_False.
  - unfold Hosts. by case_decide.
  - unfold Hosts. case_decide; simpl; [done|]. split; [done|lia].
  - intros Hne. unfold Hosts. by rewrite decide_False.
  - intros schedule Hs. eexists. split.
    + by apply cachePopulateEvery_failures.
    + done.
  - intros w. eexists. split; [reflexivity|done].
  - intros w. eexists. split; [reflexivity|done].
Qed.

Lemma Containers_Hosts_empty_iff_witness :
  ∃ w, NewMetadataCachingRepository
         [(Fails ErrTransport, Fails ErrTransport);
          (Fails ErrDecode, Fails ErrTransport)] = Returned w ∧
       Containers (mcr w) = ([], Some ErrContainerRepoEmpty) ∧
       Hosts (mcr w) = ([], Some ErrHostRepoEmpty).
Proof.
  apply (Containers_Hosts_empty_iff empty_repository).
  repeat constructor.
Defined.

(** ** Building an index *)

Lemma index_by_snoc {A} (key : A → string) (heap : list A) xs x :
  index_by key heap (xs ++ [x]) =
  (m ← index_by key heap xs; o ← deref heap x; Returned (<[key o := x]> m)).
Proof. unfold index_by. by rewrite foldl_app. Qed.

(** A nil pointer anywhere in the slice makes the loop fault. *)
Lemma index_by_nil {A} (key : A → string) (heap : list A) xs ys :
  index_by key heap (xs ++ None :: ys) = Panicked.
Proof.
  unfold index_by. rewrite foldl_app. simpl.
  match goal with
  | |- context [foldl ?f ?a xs] => destruct (foldl f a xs)
  end; simpl; by induction ys.
Qed.

Lemma index_by_locs {A} (key : A → string) (heap : list A) (ls : list nat) :
  Forall (λ l, is_Some (heap !! l)) ls →
  ∃ m, index_by key heap (Some <$> ls) = Returned m ∧
    ∀ k p, m !! k = Some p ↔
      ∃ i l v, p = Some l ∧ ls !! i = Some l ∧ heap !! l = Some v ∧ key v = k ∧
        ∀ j l' v', i < j → ls !! j = Some l' → heap !! l' = Some v' → key v' ≠ k.
Proof.
  induction ls as [|l ls IH] using rev_ind.
  - intros _. exists ∅. split; [done|]. intros k p. rewrite lookup_empty.
    split; [done|]. by intros (i & l & v & _ & ? & _).
  - intros [Hls [Hl _]%Forall_cons]%Forall_app. destruct Hl as [v Hv].
    destruct (IH Hls) as (m & Hm & Hchar). clear IH.
    exists (<[key v := Some l]> m). split.
    { rewrite fmap_app. simpl. rewrite index_by_snoc, Hm. simpl.
      by rewrite Hv. }
    intros k p. destruct (decide (key v = k)) as [<-|Hne].
    + rewrite lookup_insert_eq. split.
      * intros [= <-]. exists (length ls), l, v.
        split_and!; [done|by apply list_lookup_middle|done|done|].
        intros j l' v' Hj Hl'%lookup_lt_Some. rewrite length_app in Hl'.
        simpl in Hl'. lia.
      * intros (i & l0 & v0 & -> & Hi & Hv0 & Hk & Hlast).
        pose proof (lookup_lt_Some _ _ _ Hi) as Hlt.
        rewrite length_app in Hlt. simpl in Hlt.
        destruct (decide (i = length ls)) as [->|Hni].
        -- rewrite list_lookup_middle in Hi by done. by simplify_eq.
        -- exfalso. apply (Hlast (length ls) l v); [lia| |done|done].
           by apply list_lookup_middle.
    + rewrite lookup_insert_ne by done. rewrite Hchar. split.
      * intros (i & l0 & v0 & -> & Hi & Hv0 & Hk & Hlast).
        exists i, l0, v0. split_and!; [done| |done|done|].
        { by apply lookup_app_l_Some. }
        intros j l' v' Hj Hl' Hv'.
        destruct (decide (j < length ls)) as [Hlt|Hge].
        -- rewrite lookup_app_l in Hl' by done. by eapply Hlast.
        -- pose proof (lookup_lt_Some _ _ _ Hl') as Hlt.
           rewrite length_app in Hlt. simpl in Hlt.
           assert (j = length ls) as -> by lia.
           rewrite list_lookup_middle in Hl' by done. by simplify_eq.
      * intros (i & l0 & v0 & -> & Hi & Hv0 & Hk & Hlast).
        pose proof (lookup_lt_Some _ _ _ Hi) as Hlt.
        rewrite length_app in Hlt. simpl in Hlt.
        destruct (decide (i = length ls)) as [->|Hni].
        { rewrite list_lookup_middle in Hi by done. by simplify_eq. }
        rewrite lookup_app_l in Hi by lia.
        exists i, l0, v0. split_and!; [done..|].
        intros j l' v' Hj Hl' Hv'. eapply Hlast; [done| |done].
        by apply lookup_app_l_Some.
Qed.

Lemma lookup_fresh {A} (h vs : list A) i :
  (h ++ vs) !! (length h + i) = vs !! i.
Proof. rewrite lookup_app_r by lia. f_equal. lia. Qed.

(** The index built over freshly allocated cells: a key is bound to the
    cell of the last value that carries it. *)
Lemma index_by_cells {A} (key : A → string) (h vs : list A) :
  ∃ m, index_by key (h ++ vs) (cells (length h) (length vs)) = Returned m ∧
    ∀ k p, m !! k = Some p ↔
      ∃ i v, p = Some (length h + i) ∧ last_with key vs k i v.
Proof.
  destruct (index_by_locs key (h ++ vs) (seq (length h) (length vs)))
    as (m & Hm & Hchar).
  { apply Forall_forall. intros l [? ?]%elem_of_seq.
    apply lookup_lt_is_Some_2. rewrite length_app. lia. }
  exists m. split; [done|]. intros k p. rewrite Hchar. split.
  - intros (i & l & v & -> & [-> Hi]%lookup_seq & Hv & Hk & Hlast).
    rewrite lookup_fresh in Hv. exists i, v. split; [done|].
    split_and!; [done..|]. intros j v' Hj Hv'.
    apply (Hlast j (length h + j) v'); [done| |by rewrite lookup_fresh].
    apply lookup_seq. split; [done|]. by apply lookup_lt_Some in Hv'.
  - intros (i & v & -> & Hv & Hk & Hlast).
    exists i, (length h + i), v. split_and!; [done| |by rewrite lookup_fresh|done|].
    { apply lookup_seq. split; [done|]. by apply lookup_lt_Some in Hv. }
    intros j l' v' Hj [-> _]%lookup_seq Hv'. rewrite lookup_fresh in Hv'.
    by eapply Hlast.
Qed.

(** ** A refresh whose fetch delivers *)

Lemma refreshContainers_Delivers vs w :
  ∃ cm,
    refreshContainers (Delivers (Some <$> vs)) w =
    Returned
      (mkWorld (container_store w ++ vs) (host_store w)
         (mkRepository (cells (length (container_store w)) (length vs)) cm
            (hosts (mcr w)) (hostMap (mcr w)))) ∧
    ∀ k p, cm !! k = Some p ↔
      ∃ i v, p = Some (length (container_store w) + i) ∧
             last_with Container_Name vs k i v.
Proof.
  destruct (index_by_cells Container_Name (container_store w) vs)
    as (cm & Hcm & Hchar).
  exists cm. split; [|done].
  unfold refreshContainers. simpl. rewrite new_objects_Some. simpl.
  by rewrite Hcm.
Qed.

Lemma refreshHosts_Delivers vs w :
  ∃ hm,
    refreshHosts (Delivers (Some <$> vs)) w =
    Returned
      (mkWorld (container_store w) (host_store w ++ vs)
         (mkRepository (containers (mcr w)) (containerMap (mcr w))
            (cells (length (host_store w)) (length vs)) hm)) ∧
    ∀ k p, hm !! k = Some p ↔
      ∃ i v, p = Some (length (host_store w) + i) ∧
             last_with Host_UUID vs k i v.
Proof.
  destruct (index_by_cells Host_UUID (host_store w) vs) as (hm & Hhm & Hchar).
  exists hm. split; [|done].
  unfold refreshHosts. simpl. rewrite new_objects_Some. simpl.
  by rewrite Hhm.
Qed.

Lemma new_objects_None {A} (heap : list A) items :
  None ∈ items → None ∈ (new_objects heap items).2.
Proof.
  revert heap. induction items as [|[v|] items IH]; intros heap Hin.
  - by apply elem_of_nil in Hin.
  - apply elem_of_cons in Hin as [?|Hin]; [done|]. simpl.
    specialize (IH (heap ++ [v]) Hin).
    destruct (new_objects (heap ++ [v]) items). simpl in *.
    by apply elem_of_cons; right.
  - simpl. destruct (new_objects heap items). simpl. by apply elem_of_cons; left.
Qed.

Lemma not_clean_None {A} (items : list (option A)) :
  ¬ Forall is_Some items → None ∈ items.
Proof.
  intros Hn. induction items as [|[v|] items IH].
  - by destruct Hn.
  - apply elem_of_cons; right. apply IH. intros H. apply Hn.
    constructor; [by eexists|done].
  - by apply elem_of_cons; left.
Qed.

(** A response that is not clean makes the refresh fault: the client
    panics in a decoder, or the slice holds a nil pointer and the loop that
    builds the index dereferences it. *)
Lemma refreshContainers_not_clean rc w :
  ¬ clean rc → refreshContainers rc w = Panicked.
Proof.
  destruct rc as [e| |items]; simpl; [by intros []|done|].
  intros Hin%not_clean_None. unfold refreshContainers. simpl.
  apply (new_objects_None (container_store w)) in Hin.
  destruct (new_objects (container_store w) items) as [heap ps]. simpl in *.
  apply list_elem_of_split in Hin as (xs & ys & ->).
  by rewrite index_by_nil.
Qed.

Lemma refreshHosts_not_clean rh w :
  ¬ clean rh → refreshHosts rh w = Panicked.
Proof.
  destruct rh as [e| |items]; simpl; [by intros []|done|].
  intros Hin%not_clean_None. unfold refreshHosts. simpl.
  apply (new_objects_None (host_store w)) in Hin.
  destruct (new_objects (host_store w) items) as [heap ps]. simpl in *.
  apply list_elem_of_split in Hin as (xs & ys & ->).
  by rewrite index_by_nil.
Qed.

(** ** The enrichment loop *)

Lemma HostByUUID_found r uuid h :
  HostByUUID r uuid = (h, None) → hostMap r !! uuid = Some h.
Proof.
  unfold HostByUUID. case_decide; [done|].
  destruct (hostMap r !! uuid); by intros [= <-] || done.
Qed.

Lemma enriched_idemp r hs o : enriched r hs (enriched r hs o) = enriched r hs o.
Proof.
  unfold enriched at 2.
  destruct (HostByUUID r (Host_UUID (Container_Host o))) as [h [e|]] eqn:E;
    [done|].
  destruct (deref hs h) as [ho|] eqn:Eh; [|done].
  unfold enriched. simpl. rewrite E, Eh. done.
Qed.

Lemma enriched_same_upstream r hs o : same_upstream_fields o (enriched r hs o).
Proof.
  unfold enriched.
  destruct (HostByUUID r (Host_UUID (Container_Host o))) as [h [e|]];
    [done|]. by destruct (deref hs h).
Qed.

Lemma enrich_Some cs hs r l o :
  cs !! l = Some o →
  map_Forall (λ _ p, valid hs p) (hostMap r) →
  enrich (mkWorld cs hs r) (Some l)
  = Returned (mkWorld (<[l := enriched r hs o]> cs) hs r).
Proof.
  intros Ho Hvalid. unfold enrich, enriched. simpl. rewrite Ho. simpl.
  destruct (HostByUUID r (Host_UUID (Container_Host o))) as [h [e|]] eqn:E.
  - by rewrite list_insert_id.
  - apply HostByUUID_found in E. apply Hvalid in E.
    apply valid_deref in E as [ho Hho]. by rewrite Hho.
Qed.

Lemma enrich_loop ls cs hs r :
  Forall (λ l, l < length cs) ls →
  map_Forall (λ _ p, valid hs p) (hostMap r) →
  ∃ cs',
    foldl (λ acc c, w ← acc; enrich w c) (Returned (mkWorld cs hs r))
      (Some <$> ls)
    = Returned (mkWorld cs' hs r) ∧
    length cs' = length cs ∧
    ∀ l, cs' !! l =
         if decide (l ∈ ls) then enriched r hs <$> cs !! l else cs !! l.
Proof.
  intros Hls Hvalid. revert cs Hls.
  induction ls as [|l ls IH]; intros cs Hls.
  - exists cs. split_and!; [done..|]. intros l.
    rewrite decide_False; [done|]. apply not_elem_of_nil.
  - apply Forall_cons in Hls as [Hl Hls].
    apply lookup_lt_is_Some_2 in Hl as [o Ho].
    destruct (IH (<[l := enriched r hs o]> cs)) as (cs' & Hcs' & Hlen & Hchar).
    { by rewrite length_insert. }
    exists cs'. split_and!.
    + simpl. rewrite (enrich_Some _ _ _ _ o) by done. exact Hcs'.
    + by rewrite Hlen, length_insert.
    + intros x. rewrite Hchar. destruct (decide (x = l)) as [->|Hne].
      * rewrite list_lookup_insert_eq by by eapply lookup_lt_Some.
        rewrite (decide_True (P := l ∈ l :: ls)) by by apply elem_of_cons; left.
        rewrite Ho. simpl. case_decide; [by rewrite enriched_idemp|done].
      * rewrite list_lookup_insert_ne by done.
        destruct (decide (x ∈ ls)) as [Hin|Hnin].
        -- by rewrite decide_True by by apply elem_of_cons; right.
        -- rewrite decide_False; [done|].
           by intros [?|?]%elem_of_cons.
Qed.

Lemma valid_list {A} (heap : list A) ps :
  Forall (valid heap) ps →
  ∃ ls, ps = Some <$> ls ∧ Forall (λ l, l < length heap) ls.
Proof.
  induction 1 as [|p ps (l & -> & Hl) _ (ls & -> & Hls)].
  - by exists [].
  - exists (l :: ls). split; [done|]. by constructor.
Qed.

(** The loop over the published containers, from a state in which they and
    the pointers of the host index can be dereferenced: it returns, changes
    nothing but the container store, and leaves in each published cell the
    enriched container. *)
Lemma enrichment_spec w :
  Forall (valid (container_store w)) (containers (mcr w)) →
  map_Forall (λ _ p, valid (host_store w) p) (hostMap (mcr w)) →
  ∃ cs',
    foldl (λ acc c, w ← acc; enrich w c) (Returned w) (Containers (mcr w)).1
    = Returned (mkWorld cs' (host_store w) (mcr w)) ∧
    length cs' = length (container_store w) ∧
    ∀ l, cs' !! l =
         if decide (Some l ∈ containers (mcr w))
         then enriched (mcr w) (host_store w) <$> container_store w !! l
         else container_store w !! l.
Proof.
  destruct w as [cs hs r]. simpl. intros (ls & Hps & Hls)%valid_list Hvalid.
  destruct (enrich_loop ls cs hs r Hls Hvalid) as (cs' & Hcs' & Hlen & Hchar).
  exists cs'. split_and!; [|done|].
  - assert ((Containers r).1 = containers r) as -> by (unfold Containers; by case_decide).
    by rewrite Hps.
  - intros l. rewrite Hchar, Hps.
    destruct (decide (l ∈ ls)) as [Hin|Hnin].
    + rewrite decide_True; [done|]. by apply list_elem_of_fmap_2.
    + rewrite decide_False; [done|].
      intros (l' & [= <-] & ?)%list_elem_of_fmap. done.
Qed.

Lemma cycle_unfold rc rh w :
  cycle rc rh w =
  (wa ← refreshHosts rh w;
   wb ← refreshContainers rc wa;
   foldl (λ acc c, w ← acc; enrich w c) (Returned wb) (Containers (mcr wb)).1).
Proof.
  unfold cycle. destruct (refreshHosts rh w) as [wa|]; simpl; [|done].
  destruct (refreshContainers rc wa) as [wb|]; simpl; [|done].
  by destruct (Containers (mcr wb)).
Qed.

(** ** Refreshes and cycles on clean responses *)

Lemma delivered_Some {A} (vs : list A) : delivered (Delivers (Some <$> vs)) = vs.
Proof. unfold delivered. induction vs as [|v vs IH]; [done|]. simpl. by f_equal. Qed.

Lemma clean_cases {A} (r : response A) :
  clean r → (∃ e, r = Fails e) ∨ (∃ vs, r = Delivers (Some <$> vs)).
Proof.
  destruct r as [e| |items]; simpl; [by left; eexists|done|].
  intros [vs ->]%clean_Delivers. right. by eexists.
Qed.

Lemma last_with_lt {A} (key : A → string) vs k i v :
  last_with key vs k i v → i < length vs.
Proof. intros [Hv _]. by apply lookup_lt_Some in Hv. Qed.

Lemma last_with_exists {A} (key : A → string) vs k :
  (∃ v, v ∈ vs ∧ key v = k) → ∃ i v, last_with key vs k i v.
Proof.
  induction vs as [|x vs IH] using rev_ind.
  - intros (v & Hin & _). by apply elem_of_nil in Hin.
  - intros (v & Hin & Hk). destruct (decide (key x = k)) as [Hx|Hx].
    + exists (length vs), x. split_and!; [by apply list_lookup_middle|done|].
      intros j v' Hj Hv'%lookup_lt_Some. rewrite length_app in Hv'.
      simpl in Hv'. lia.
    + destruct IH as (i & v0 & Hi & Hk0 & Hlast).
      { exists v. split; [|done].
        apply elem_of_app in Hin as [?|Hin%list_elem_of_singleton]; [done|].
        by subst. }
      exists i, v0. split_and!; [by apply lookup_app_l_Some|done|].
      intros j v' Hj Hv'. destruct (decide (j < length vs)).
      * rewrite lookup_app_l in Hv' by done. by eapply Hlast.
      * pose proof (lookup_lt_Some _ _ _ Hv') as Hlt.
        rewrite length_app in Hlt. simpl in Hlt.
        assert (j = length vs) as -> by lia.
        rewrite list_lookup_middle in Hv' by done. by simplify_eq.
Qed.

Lemma last_with_unique {A} (key : A → string) vs k i v i' v' :
  last_with key vs k i v → last_with key vs k i' v' → i = i' ∧ v = v'.
Proof.
  intros (Hv & Hk & Hlast) (Hv' & Hk' & Hlast').
  assert (i = i') as ->.
  { destruct (Nat.lt_trichotomy i i') as [Hlt|[?|Hlt]]; [|done|].
    - by destruct (Hlast _ _ Hlt Hv').
    - by destruct (Hlast' _ _ Hlt Hv). }
  split; [done|]. congruence.
Qed.

Lemma refreshContainers_frame rc w w' :
  refreshContainers rc w = Returned w' →
  hosts (mcr w') = hosts (mcr w) ∧ hostMap (mcr w') = hostMap (mcr w) ∧
  host_store w' = host_store w.
Proof.
  destruct rc as [e| |items]; unfold refreshContainers; simpl; [|done|].
  - by intros [= <-].
  - destruct (new_objects (container_store w) items) as [heap ps]. simpl.
    destruct (index_by Container_Name heap ps); simpl; [|done].
    by intros [= <-].
Qed.

Lemma refreshHosts_frame rh w w' :
  refreshHosts rh w = Returned w' →
  containers (mcr w') = containers (mcr w) ∧
  containerMap (mcr w') = containerMap (mcr w) ∧
  container_store w' = container_store w.
Proof.
  destruct rh as [e| |items]; unfold refreshHosts; simpl; [|done|].
  - by intros [= <-].
  - destruct (new_objects (host_store w) items) as [heap ps]. simpl.
    destruct (index_by Host_UUID heap ps); simpl; [|done].
    by intros [= <-].
Qed.

Lemma refreshHosts_clean rh w :
  wf w → clean rh →
  ∃ w', refreshHosts rh w = Returned w' ∧ wf w' ∧
        host_store w' = host_store w ++ delivered rh ∧
        hosts (mcr w') = published (length (host_store w)) rh (hosts (mcr w)).
Proof.
  intros [Hc Hcm Hh Hhm] [[e ->]|[vs ->]]%clean_cases.
  - exists w. simpl. by rewrite app_nil_r.
  - destruct (refreshHosts_Delivers vs w) as (hm & -> & Hchar).
    eexists. split; [done|]. rewrite delivered_Some. simpl.
    rewrite length_fmap. split_and!; [|done..].
    constructor; simpl; [done|done|apply cells_valid|].
    intros k p (i & v & -> & Hlw%last_with_lt)%Hchar.
    apply elem_of_cells. eauto.
Qed.

Lemma refreshContainers_clean rc w :
  wf w → clean rc →
  ∃ w', refreshContainers rc w = Returned w' ∧ wf w' ∧
        container_store w' = container_store w ++ delivered rc ∧
        containers (mcr w')
        = published (length (container_store w)) rc (containers (mcr w)).
Proof.
  intros [Hc Hcm Hh Hhm] [[e ->]|[vs ->]]%clean_cases.
  - exists w. simpl. by rewrite app_nil_r.
  - destruct (refreshContainers_Delivers vs w) as (cm & -> & Hchar).
    eexists. split; [done|]. rewrite delivered_Some. simpl.
    rewrite length_fmap. split_and!; [|done..].
    constructor; simpl; [apply cells_valid| |done|done].
    intros k p (i & v & -> & Hlw%last_with_lt)%Hchar.
    apply elem_of_cells. eauto.
Qed.

Lemma wf_hostMap_valid w :
  wf w → map_Forall (λ _ p, valid (host_store w) p) (hostMap (mcr w)).
Proof.
  intros [_ _ Hh Hhm] k p Hp. apply Hhm in Hp.
  by eapply Forall_forall in Hh.
Qed.

Lemma valid_length {A} (heap heap' : list A) p :
  length heap' = length heap → valid heap p → valid heap' p.
Proof. intros Hlen (l & -> & Hl). exists l. split; [done|lia]. Qed.

(** A whole cycle on clean responses, from a well-formed world. *)
Lemma cycle_clean rc rh w :
  wf w → clean rc → clean rh →
  ∃ wa wb cs',
    refreshHosts rh w = Returned wa ∧
    refreshContainers rc wa = Returned wb ∧
    cycle rc rh w = Returned (mkWorld cs' (host_store wb) (mcr wb)) ∧
    wf wb ∧ wf (mkWorld cs' (host_store wb) (mcr wb)) ∧
    host_store wb = host_store w ++ delivered rh ∧
    hosts (mcr wb) = published (length (host_store w)) rh (hosts (mcr w)) ∧
    container_store wb = container_store w ++ delivered rc ∧
    containers (mcr wb)
    = published (length (container_store w)) rc (containers (mcr w)) ∧
    length cs' = length (container_store wb) ∧
    ∀ l, cs' !! l =
         if decide (Some l ∈ containers (mcr wb))
         then enriched (mcr wb) (host_store wb) <$> container_store wb !! l
         else container_store wb !! l.
Proof.
  intros Hwf Hrc Hrh.
  destruct (refreshHosts_clean rh w Hwf Hrh) as (wa & Hwa & Hwfa & Hhs & Hhosts).
  destruct (refreshContainers_clean rc wa Hwfa Hrc)
    as (wb & Hwb & Hwfb & Hcs & Hconts).
  destruct (refreshHosts_frame _ _ _ Hwa) as (Hca & Hcma & Hcsa).
  destruct (refreshContainers_frame _ _ _ Hwb) as (Hhb & Hhmb & Hhsb).
  destruct (enrichment_spec wb) as (cs' & Hfold & Hlen & Hchar).
  { by destruct Hwfb. }
  { by apply wf_hostMap_valid. }
  exists wa, wb, cs'. split_and!; try done.
  - by rewrite cycle_unfold, Hwa; simpl; rewrite Hwb.
  - destruct Hwfb as [H1 H2 H3 H4]. constructor; simpl; [|done..].
    eapply Forall_impl; [exact H1|]. intros p. by apply valid_length.
  - by rewrite Hhsb, Hhs.
  - by rewrite Hhb, Hhosts.
  - by rewrite Hcs, Hcsa.
  - by rewrite Hconts, Hcsa, Hca.
Qed.

Lemma read_all_fresh {A} (h vs : list A) :
  read_all (h ++ vs) (cells (length h) (length vs)) = Returned <$> vs.
Proof.
  apply list_eq. intros i. unfold read_all.
  rewrite !list_lookup_fmap, cells_lookup. case_decide as Hi.
  - simpl. rewrite lookup_fresh.
    apply lookup_lt_is_Some_2 in Hi as [v Hv]. by rewrite Hv.
  - by rewrite lookup_ge_None_2 by lia.
Qed.

Lemma index_None_iff {A} (key : A → string) (vs : list A) (base : nat)
    (m : gmap string ptr) :
  (∀ k p, m !! k = Some p ↔ ∃ i v, p = Some (base + i) ∧ last_with key vs k i v) →
  ∀ k, m !! k = None ↔ ∀ v, v ∈ vs → key v ≠ k.
Proof.
  intros Hchar k. split.
  - intros Hnone v Hin Hk.
    destruct (last_with_exists key vs k) as (i & v' & Hlw); [by eauto|].
    assert (m !! k = Some (Some (base + i))) as Hsome by (apply Hchar; eauto).
    by rewrite Hnone in Hsome.
  - intros Hall. destruct (m !! k) as [p|] eqn:E; [|done].
    apply Hchar in E as (i & v & _ & Hv & Hk & _).
    destruct (Hall v); [|done]. by eapply list_elem_of_lookup_2.
Qed.

(** C7.  After a refresh whose fetch delivered the values [vs], the
    published collection is the row of fresh cells holding [vs] in order,
    and the index binds a key to one pointer only: the cell of the last
    value of [vs] that carries the key.  A key is unbound exactly when no
    fetched value carries it.  This holds for the containers by name and
    for the hosts by UUID. *)
Theorem refresh_index_last_write_wins (cvs : list Container) (hvs : list Host)
    (w : World) :
  (∃ w',
     refreshContainers (Delivers (Some <$> cvs)) w = Returned w' ∧
     containers (mcr w') = cells (length (container_store w)) (length cvs) ∧
     read_all (container_store w') (containers (mcr w')) = Returned <$> cvs ∧
     (∀ name p,
        containerMap (mcr w') !! name = Some p ↔
        ∃ i v, p = Some (length (container_store w) + i) ∧
               last_with Container_Name cvs name i v) ∧
     (∀ name p q,
        containerMap (mcr w') !! name = Some p →
        containerMap (mcr w') !! name = Some q → p = q) ∧
     (∀ name, containerMap (mcr w') !! name = None ↔
              ∀ v, v ∈ cvs → Container_Name v ≠ name)) ∧
  (∃ w',
     refreshHosts (Delivers (Some <$> hvs)) w = Returned w' ∧
     hosts (mcr w') = cells (length (host_store w)) (length hvs) ∧
     read_all (host_store w') (hosts (mcr w')) = Returned <$> hvs ∧
     (∀ uuid p,
        hostMap (mcr w') !! uuid = Some p ↔
        ∃ i v, p = Some (length (host_store w) + i) ∧
               last_with Host_UUID hvs uuid i v) ∧
     (∀ uuid p q,
        hostMap (mcr w') !! uuid = Some p →
        hostMap (mcr w') !! uuid = Some q → p = q) ∧
     (∀ uuid, hostMap (mcr w') !! uuid = None ↔
              ∀ v, v ∈ hvs → Host_UUID v ≠ uuid)).
Proof.
  split.
  - destruct (refreshContainers_Delivers cvs w) as (cm & -> & Hchar).
    eexists. split; [done|]. simpl. split_and!; [done|by apply read_all_fresh|done| |].
    + intros name p q ? ?. congruence.
    + by apply (index_None_iff Container_Name cvs (length (container_store w))).
  - destruct (refreshHosts_Delivers hvs w) as (hm & -> & Hchar).
    eexists. split; [done|]. simpl. split_and!; [done|by apply read_all_fresh|done| |].
    + intros uuid p q ? ?. congruence.
    + by apply (index_None_iff Host_UUID hvs (length (host_store w))).
Qed.

Example refresh_index_duplicates :
  (w ← refreshContainers
         (Delivers [Some (mkContainer "a" "running" "10.0.0.1" 0 zero_Host);
                    Some (mkContainer "b" "running" "10.0.0.2" 0 zero_Host);
                    Some (mkContainer "a" "stopped" "10.0.0.3" 0 zero_Host)])
         (mkWorld [] [] empty_repository);
   Returned (containers (mcr w),
             (ContainerByName (mcr w) "a").1,
             deref (container_store w) (ContainerByName (mcr w) "a").1))
  = Returned ([Some 0; Some 1; Some 2], Some 2,
              Returned (mkContainer "a" "stopped" "10.0.0.3" 0 zero_Host)).
Proof. vm_compute. reflexivity. Qed.

Lemma store_after_enrichment {A} (f : A → A) (h vs cs' : list A) :
  length cs' = length (h ++ vs) →
  (∀ l, cs' !! l =
        if decide (Some l ∈ cells (length h) (length vs))
        then f <$> (h ++ vs) !! l else (h ++ vs) !! l) →
  cs' = h ++ (f <$> vs).
Proof.
  intros Hlen Hchar. apply list_eq. intros l. rewrite Hchar.
  destruct (decide (l < length h)) as [Hlt|Hge].
  - rewrite decide_False.
    + by rewrite !lookup_app_l by done.
    + intros (i & [= ->] & _)%elem_of_cells. lia.
  - replace l with (length h + (l - length h)) by lia.
    rewrite !lookup_fresh, list_lookup_fmap.
    case_decide as Hin; [done|].
    rewrite elem_of_cells in Hin.
    rewrite (lookup_ge_None_2 vs); [done|].
    destruct (decide (length vs ≤ l - length h)); [done|].
    destruct Hin. exists (l - length h). split; [done|lia].
Qed.

Lemma enriched_ext r r' hs o :
  hostMap r = hostMap r' → enriched r hs o = enriched r' hs o.
Proof. unfold enriched, HostByUUID. by intros ->. Qed.

Lemma enriched_unmatched r hs o :
  hostMap r !! Host_UUID (Container_Host o) = None → enriched r hs o = o.
Proof.
  intros Hnone. unfold enriched, HostByUUID. case_decide; [done|].
  by rewrite Hnone.
Qed.

Lemma enriched_matched r hs o l h :
  hostMap r !! Host_UUID (Container_Host o) = Some (Some l) →
  hs !! l = Some h →
  enriched r hs o = set_Host_Name (Host_Name h) o.
Proof.
  intros Hsome Hh. unfold enriched, HostByUUID.
  rewrite decide_False.
  - rewrite Hsome. simpl. by rewrite Hh.
  - intros Hz%size_zero_empty. by rewrite Hz, lookup_empty in Hsome.
Qed.

Lemma refreshContainers_Returned_clean rc w w' :
  refreshContainers rc w = Returned w' → clean rc.
Proof.
  intros Hret. destruct rc as [e| |items]; simpl; [done|done|].
  destruct (decide (Forall is_Some items)) as [?|Hn]; [done|].
  by rewrite (refreshContainers_not_clean (Delivers items)) in Hret.
Qed.

Lemma refreshHosts_Returned_clean rh w w' :
  refreshHosts rh w = Returned w' → clean rh.
Proof.
  intros Hret. destruct rh as [e| |items]; simpl; [done|done|].
  destruct (decide (Forall is_Some items)) as [?|Hn]; [done|].
  by rewrite (refreshHosts_not_clean (Delivers items)) in Hret.
Qed.

(** A cycle returns only on clean responses: otherwise the process dies. *)
Lemma cycle_Returned_clean rc rh w w' :
  cycle rc rh w = Returned w' → clean rc ∧ clean rh.
Proof.
  rewrite cycle_unfold.
  intros (wa & Hwa & (wb & Hwb & _)%bind_Returned)%bind_Returned.
  split; [by eapply refreshContainers_Returned_clean
         |by eapply refreshHosts_Returned_clean].
Qed.

Lemma wf_empty : wf (mkWorld [] [] empty_repository).
Proof. constructor; simpl; try done; apply map_Forall_empty. Qed.

(** Every state the repository goes through is well-formed. *)
Lemma cachePopulateEvery_wf schedule w w' :
  wf w → cachePopulateEvery schedule w = Returned w' → wf w'.
Proof.
  revert w. induction schedule as [|[rc rh] schedule IH]; intros w Hwf; simpl.
  - by intros [= <-].
  - intros (w1 & Hcycle & Hrest)%bind_Returned.
    destruct (cycle_Returned_clean _ _ _ _ Hcycle) as [Hrc Hrh].
    destruct (cycle_clean rc rh w Hwf Hrc Hrh)
      as (wa & wb & cs' & _ & _ & Hc & _ & Hwf1 & _).
    rewrite Hc in Hcycle. injection Hcycle as <-. by eapply IH.
Qed.

(** C8.  In every cycle that returns, from any well-formed state: the host
    store afterwards is the host store before followed by the hosts the
    client delivered, untouched; the container store afterwards is, cell by
    cell, the store before followed by the containers the client delivered,
    with the same name, state, private IP, service index and host UUID, so
    that only the host name of a container can differ; and each published
    collection is either the one published before or the row of cells the
    client has just delivered, every pointer of an index being in its
    collection. *)
Theorem cycle_writes_only_hostName rc rh w :
  wf w → clean rc → clean rh →
  ∃ w',
    cycle rc rh w = Returned w' ∧
    wf w' ∧
    host_store w' = host_store w ++ delivered rh ∧
    Forall2 same_upstream_fields
      (container_store w ++ delivered rc) (container_store w') ∧
    containers (mcr w')
    = published (length (container_store w)) rc (containers (mcr w)) ∧
    hosts (mcr w') = published (length (host_store w)) rh (hosts (mcr w)).
Proof.
  intros Hwf Hrc Hrh.
  destruct (cycle_clean rc rh w Hwf Hrc Hrh)
    as (wa & wb & cs' & _ & _ & Hc & _ & Hwf' & Hhs & Hh & Hcs & Hcn & Hlen & Hchar).
  eexists. split; [exact Hc|]. simpl. split_and!; [done|done| |done|done].
  rewrite <- Hcs. apply Forall2_same_length_lookup. split; [done|].
  intros l x y Hx Hy. rewrite Hchar, Hx in Hy. simpl in Hy.
  case_decide; simplify_eq; [apply enriched_same_upstream|done].
Qed.

Lemma cycle_writes_only_hostName_witness :
  ∃ w',
    cycle (Delivers [Some (mkContainer "a" "running" "10.0.0.1" 0 (mkHost "H1" ""))])
          (Delivers [Some (mkHost "H1" "host-1")])
          (mkWorld [] [] empty_repository) = Returned w' ∧
    host_store w' = [mkHost "H1" "host-1"] ∧
    Forall2 same_upstream_fields
      [mkContainer "a" "running" "10.0.0.1" 0 (mkHost "H1" "")]
      (container_store w').
Proof.
  destruct (cycle_writes_only_hostName
              (Delivers [Some (mkContainer "a" "running" "10.0.0.1" 0 (mkHost "H1" ""))])
              (Delivers [Some (mkHost "H1" "host-1")])
              (mkWorld [] [] empty_repository))
    as (w' & Hc & _ & Hhs & Hcs & _).
  - exact wf_empty.
  - simpl. repeat constructor. by eexists.
  - simpl. repeat constructor. by eexists.
  - exists w'. split; [exact Hc|]. split; [exact Hhs|exact Hcs].
Defined.

Lemma Containers_fst r : (Containers r).1 = containers r.
Proof. unfold Containers. by case_decide. Qed.

Lemma Hosts_fst r : (Hosts r).1 = hosts r.
Proof. unfold Hosts. by case_decide. Qed.

(** C6.  In a cycle where the host fetch fails and the container fetch
    delivers, from a well-formed state: [Containers] afterwards returns the
    fresh cells, which hold the fetched containers, enriched against the
    host index of before the cycle (so with their own, empty, host name
    when that index is empty); [Hosts] and [HostByUUID] answer what they
    answered before, the repository-empty error if the host collection was
    empty, and the host store is untouched.  Besides, no refresh of one kind
    ever changes the collection, the index or the store of the other
    kind. *)
Theorem host_failure_isolated cvs e w :
  wf w →
  (∃ w',
     cycle (Delivers (Some <$> cvs)) (Fails e) w = Returned w' ∧
     (Containers (mcr w')).1 = cells (length (container_store w)) (length cvs) ∧
     (cvs ≠ [] → (Containers (mcr w')).2 = None) ∧
     read_all (container_store w') (Containers (mcr w')).1
     = Returned <$> (enriched (mcr w) (host_store w) <$> cvs) ∧
     Forall2 same_upstream_fields cvs
       (enriched (mcr w) (host_store w) <$> cvs) ∧
     (hostMap (mcr w) = ∅ →
      read_all (container_store w') (Containers (mcr w')).1 = Returned <$> cvs) ∧
     Hosts (mcr w') = Hosts (mcr w) ∧
     (∀ uuid, HostByUUID (mcr w') uuid = HostByUUID (mcr w) uuid) ∧
     host_store w' = host_store w ∧
     (hosts (mcr w) = [] → Hosts (mcr w') = ([], Some ErrHostRepoEmpty))) ∧
  (∀ rc w0 w1, refreshContainers rc w0 = Returned w1 →
     hosts (mcr w1) = hosts (mcr w0) ∧ hostMap (mcr w1) = hostMap (mcr w0) ∧
     host_store w1 = host_store w0) ∧
  (∀ rh w0 w1, refreshHosts rh w0 = Returned w1 →
     containers (mcr w1) = containers (mcr w0) ∧
     containerMap (mcr w1) = containerMap (mcr w0) ∧
     container_store w1 = container_store w0).
Proof.
  intros Hwf. split_and!;
    [|apply refreshContainers_frame|apply refreshHosts_frame].
  destruct (cycle_clean (Delivers (Some <$> cvs)) (Fails e) w Hwf)
    as (wa & wb & cs' & Hwa & Hwb & Hc & _ & _ & Hhs & Hh & Hcs & Hcn & Hlen & Hchar).
  { simpl. apply Forall_fmap, Forall_forall. intros v _. by eexists. }
  { done. }
  rewrite refreshHosts_Fails in Hwa. injection Hwa as <-.
  destruct (refreshContainers_frame _ _ _ Hwb) as (_ & Hhm & _).
  rewrite delivered_Some in Hcs. simpl in Hhs, Hh, Hcn.
  rewrite app_nil_r in Hhs. rewrite length_fmap in Hcn.
  rewrite Hcs, Hcn in Hchar. rewrite Hcs in Hlen.
  apply store_after_enrichment in Hchar; [|done]. subst cs'.
  assert (Hen : enriched (mcr wb) (host_store wb) <$> cvs
                = enriched (mcr w) (host_store w) <$> cvs).
  { rewrite Hhs. apply list_fmap_ext. intros _ v _. by apply enriched_ext. }
  rewrite Hen in Hc. clear Hen.
  assert (Hread :
            read_all (container_store w ++ (enriched (mcr w) (host_store w) <$> cvs))
              (cells (length (container_store w)) (length cvs))
            = Returned <$> (enriched (mcr w) (host_store w) <$> cvs)).
  { rewrite <- (length_fmap (enriched (mcr w) (host_store w)) cvs).
    apply read_all_fresh. }
  eexists. split; [exact Hc|]. simpl. rewrite Containers_fst, Hcn.
  split_and!.
  - done.
  - intros Hne. unfold Containers. rewrite Hcn. rewrite decide_False; [done|].
    unfold cells. rewrite length_fmap, length_seq. by destruct cvs.
  - exact Hread.
  - apply Forall2_fmap_r, Forall_Forall2_diag, Forall_forall.
    intros v _. apply enriched_same_upstream.
  - intros Hempty. rewrite Hread. f_equal.
    rewrite <- (list_fmap_id cvs) at 2. apply list_fmap_ext.
    intros _ v _. apply enriched_unmatched. by rewrite Hempty, lookup_empty.
  - unfold Hosts. by rewrite Hh.
  - intros uuid. unfold HostByUUID. by rewrite Hhm.
  - done.
  - intros Hnil. unfold Hosts. by rewrite Hh, Hnil.
Qed.

Lemma host_failure_isolated_witness :
  ∃ w',
    cycle (Delivers [Some (mkContainer "a" "running" "10.0.0.1" 0 (mkHost "H1" ""))])
          (Fails ErrTransport)
          (mkWorld [] [] empty_repository) = Returned w' ∧
    read_all (container_store w') (Containers (mcr w')).1
    = [Returned (mkContainer "a" "running" "10.0.0.1" 0 (mkHost "H1" ""))] ∧
    Hosts (mcr w') = ([], Some ErrHostRepoEmpty).
Proof.
  destruct (host_failure_isolated
              [mkContainer "a" "running" "10.0.0.1" 0 (mkHost "H1" "")]
              ErrTransport (mkWorld [] [] empty_repository) wf_empty)
    as ((w' & Hc & _ & _ & _ & _ & Hread & _ & _ & _ & Hhosts) & _).
  exists w'. split; [exact Hc|]. split.
  - apply Hread. reflexivity.
  - apply Hhosts. reflexivity.
Defined.

(** ** A cycle in which both fetches deliver *)

Lemma cycle_Delivers cvs hvs w :
  ∃ cm hm,
    let hs' := host_store w ++ hvs in
    let r' := mkRepository (cells (length (container_store w)) (length cvs)) cm
                (cells (length (host_store w)) (length hvs)) hm in
    cycle (Delivers (Some <$> cvs)) (Delivers (Some <$> hvs)) w
    = Returned (mkWorld (container_store w ++ (enriched r' hs' <$> cvs)) hs' r') ∧
    (∀ k p, cm !! k = Some p ↔
       ∃ i v, p = Some (length (container_store w) + i) ∧
              last_with Container_Name cvs k i v) ∧
    (∀ k p, hm !! k = Some p ↔
       ∃ i v, p = Some (length (host_store w) + i) ∧
              last_with Host_UUID hvs k i v).
Proof.
  destruct (refreshHosts_Delivers hvs w) as (hm & Hwa & Hhm).
  set (wa := mkWorld _ _ _) in Hwa.
  destruct (refreshContainers_Delivers cvs wa) as (cm & Hwb & Hcm).
  set (wb := mkWorld _ _ _) in Hwb.
  destruct (enrichment_spec wb) as (cs' & Hfold & Hlen & Hchar).
  { apply cells_valid. }
  { intros k p (i & v & -> & Hlw%last_with_lt)%Hhm. simpl.
    exists (length (host_store w) + i). rewrite length_app. split; [done|lia]. }
  simpl in Hfold, Hlen, Hchar.
  apply store_after_enrichment in Hchar; [|done]. subst cs'.
  exists cm, hm. split_and!; [|done..].
  simpl. by rewrite cycle_unfold, Hwa; simpl; rewrite Hwb.
Qed.

Lemma last_with_NoDup {A} (key : A → string) vs h :
  NoDup (key <$> vs) → h ∈ vs → ∃ j, last_with key vs (key h) j h.
Proof.
  intros Hnd (j & Hj)%list_elem_of_lookup_1. exists j. split_and!; [done..|].
  intros j' h' Hlt Hh' Heq.
  assert (j' = j); [|lia].
  eapply (NoDup_lookup (key <$> vs)); [done| |].
  - by rewrite list_lookup_fmap, Hh'.
  - by rewrite list_lookup_fmap, Hj, Heq.
Qed.

(** C2, as the code has it.  After a cycle in which both fetches deliver,
    the container snapshot holds the fetched containers with their upstream
    fields, and every container in it carries the name of the last host of
    the host snapshot that has its host UUID, the one the host index holds;
    a container whose host UUID no host of the snapshot has keeps the empty
    host name the decoder gave it, and the cycle returns without reporting
    anything.  When the UUIDs of the fetched hosts are pairwise distinct,
    a container carries the name of every host that has its host UUID. *)
Theorem cycle_enrichment cvs hvs w :
  Forall decoded cvs →
  ∃ w' cs',
    cycle (Delivers (Some <$> cvs)) (Delivers (Some <$> hvs)) w = Returned w' ∧
    host_snapshot w' = Returned <$> hvs ∧
    container_snapshot w' = Returned <$> cs' ∧
    Forall2 same_upstream_fields cvs cs' ∧
    (∀ c, c ∈ cs' →
       (∀ j h, last_with Host_UUID hvs (Host_UUID (Container_Host c)) j h →
               Host_Name (Container_Host c) = Host_Name h) ∧
       ((∀ h, h ∈ hvs → Host_UUID h ≠ Host_UUID (Container_Host c)) →
        Host_Name (Container_Host c) = "")) ∧
    (NoDup (Host_UUID <$> hvs) → named_after_every_match w').
Proof.
  intros Hdec.
  destruct (cycle_Delivers cvs hvs w) as (cm & hm & Hc & Hcm & Hhm).
  simpl in Hc.
  set (hs' := host_store w ++ hvs) in *.
  set (r' := mkRepository _ _ _ _) in *.
  assert (Hhosts : host_snapshot (mkWorld (container_store w ++ (enriched r' hs' <$> cvs)) hs' r')
                   = Returned <$> hvs).
  { unfold host_snapshot. simpl. rewrite Hosts_fst. apply read_all_fresh. }
  assert (Hconts : container_snapshot (mkWorld (container_store w ++ (enriched r' hs' <$> cvs)) hs' r')
                   = Returned <$> (enriched r' hs' <$> cvs)).
  { unfold container_snapshot. simpl. rewrite Containers_fst. simpl.
    rewrite <- (length_fmap (enriched r' hs') cvs). apply read_all_fresh. }
  assert (Hlast : ∀ v j h,
            last_with Host_UUID hvs (Host_UUID (Container_Host v)) j h →
            enriched r' hs' v = set_Host_Name (Host_Name h) v).
  { intros v j h Hlw. apply (enriched_matched _ _ _ (length (host_store w) + j)).
    - apply Hhm. eauto.
    - unfold hs'. rewrite lookup_fresh. by destruct Hlw. }
  assert (Hper : ∀ c, c ∈ enriched r' hs' <$> cvs →
            (∀ j h, last_with Host_UUID hvs (Host_UUID (Container_Host c)) j h →
                    Host_Name (Container_Host c) = Host_Name h) ∧
            ((∀ h, h ∈ hvs → Host_UUID h ≠ Host_UUID (Container_Host c)) →
             Host_Name (Container_Host c) = "")).
  { intros c (v & -> & Hv)%list_elem_of_fmap.
    destruct (enriched_same_upstream r' hs' v) as (_ & _ & _ & _ & Hu).
    rewrite Hu. split.
    - intros j h Hlw. by rewrite (Hlast v j h).
    - intros Hno. rewrite enriched_unmatched.
      + apply decoded_Host_Name. by eapply Forall_forall in Hdec.
      + by apply (index_None_iff Host_UUID hvs (length (host_store w))). }
  eexists _, (enriched r' hs' <$> cvs).
  split_and!; [exact Hc|exact Hhosts|exact Hconts| |exact Hper|].
  - apply Forall2_fmap_r, Forall_Forall2_diag, Forall_forall.
    intros v _. apply enriched_same_upstream.
  - intros Hnd c h Hcin Hhin Heq.
    rewrite Hconts in Hcin. rewrite Hhosts in Hhin.
    apply list_elem_of_fmap in Hcin as (c' & [= <-] & Hcin).
    apply list_elem_of_fmap in Hhin as (h' & [= <-] & Hhin).
    destruct (last_with_NoDup Host_UUID hvs h Hnd Hhin) as [j Hlw].
    rewrite <- Heq in Hlw. by eapply Hper.
Qed.

Lemma decoded_scenario :
  decoded (mkContainer "a" "running" "10.0.0.1" 0 (mkHost "H1" "")).
Proof.
  exists (Some (JObject [("name", JString "a"); ("state", JString "running");
                         ("primary_ip", JString "10.0.0.1");
                         ("host_uuid", JString "H1")])).
  reflexivity.
Defined.

Lemma cycle_enrichment_witness :
  ∃ w' cs',
    cycle (Delivers [Some (mkContainer "a" "running" "10.0.0.1" 0 (mkHost "H1" ""))])
          (Delivers [Some (mkHost "H1" "host-1")])
          (mkWorld [] [] empty_repository) = Returned w' ∧
    container_snapshot w' = Returned <$> cs' ∧
    ∀ c, c ∈ cs' → Host_UUID (Container_Host c) = "H1" →
         Host_Name (Container_Host c) = "host-1".
Proof.
  destruct (cycle_enrichment
              [mkContainer "a" "running" "10.0.0.1" 0 (mkHost "H1" "")]
              [mkHost "H1" "host-1"]
              (mkWorld [] [] empty_repository))
    as (w' & cs' & Hc & _ & Hcs & _ & Hper & _).
  - constructor; [exact decoded_scenario|constructor].
  - exists w', cs'. split; [exact Hc|]. split; [exact Hcs|].
    intros c Hin Hu. destruct (Hper c Hin) as [Hlast _].
    apply (Hlast 0%nat (mkHost "H1" "host-1")).
    rewrite Hu. split; [reflexivity|]. split; [reflexivity|].
    intros j v' Hj Hv'. destruct j; [lia|discriminate Hv'].
Defined.

(** C2, as it is stated, fails when the upstream sends two hosts with one
    UUID: the container carries the name of the second, not of the first. *)
Lemma named_after_every_match_counterexample :
  ∃ w',
    cycle (Delivers [Some (mkContainer "a" "running" "10.0.0.1" 0 (mkHost "H1" ""))])
          (Delivers [Some (mkHost "H1" "host-1"); Some (mkHost "H1" "host-2")])
          (mkWorld [] [] empty_repository) = Returned w' ∧
    ¬ named_after_every_match w'.
Proof.
  eexists. split; [vm_compute; reflexivity|].
  intros Hall.
  specialize (Hall (mkContainer "a" "running" "10.0.0.1" 0 (mkHost "H1" "host-2"))
                   (mkHost "H1" "host-1")).
  discriminate Hall.
  - vm_compute. apply list_elem_of_here.
  - vm_compute. apply list_elem_of_here.
  - reflexivity.
Qed.

(** ** The commit of a refresh, step by step *)

(** Run to its end, the goroutine of the commit leaves the repository that
    the refresh returns. *)
Lemma commit_containers_runs cm cs r :
  during (commit_containers_step cm cs) (AssignIndex, r)
    (Send, assign_containers cs (assign_containerMap cm r)).
Proof.
  eapply during_later; [reflexivity|].
  eapply during_later; [reflexivity|]. apply during_now.
Qed.

Lemma commit_hosts_runs hm hs r :
  during (commit_hosts_step hm hs) (AssignIndex, r)
    (Send, assign_hosts hs (assign_hostMap hm r)).
Proof.
  eapply during_later; [reflexivity|].
  eapply during_later; [reflexivity|]. apply during_now.
Qed.

(** The repositories a reader can meet during the commit: the one before,
    the one after, and the one in between, whose index is the new one and
    whose collection is still the old one. *)
Lemma commit_containers_states cm cs r s :
  during (commit_containers_step cm cs) (AssignIndex, r) s →
  s = (AssignIndex, r) ∨
  s = (AssignSlice, assign_containerMap cm r) ∨
  s = (Send, assign_containers cs (assign_containerMap cm r)).
Proof.
  intros H. inversion H as [|? s1 ? Hs1 H1]; subst; [by left|].
  injection Hs1 as <-.
  inversion H1 as [|? s2 ? Hs2 H2]; subst; [by right; left|].
  injection Hs2 as <-.
  inversion H2 as [|? s3 ? Hs3 H3]; subst; [by right; right|].
  discriminate Hs3.
Qed.

Lemma commit_hosts_states hm hs r s :
  during (commit_hosts_step hm hs) (AssignIndex, r) s →
  s = (AssignIndex, r) ∨
  s = (AssignSlice, assign_hostMap hm r) ∨
  s = (Send, assign_hosts hs (assign_hostMap hm r)).
Proof.
  intros H. inversion H as [|? s1 ? Hs1 H1]; subst; [by left|].
  injection Hs1 as <-.
  inversion H1 as [|? s2 ? Hs2 H2]; subst; [by right; left|].
  injection Hs2 as <-.
  inversion H2 as [|? s3 ? Hs3 H3]; subst; [by right; right|].
  discriminate Hs3.
Qed.

(** C5, on the code.  The repository holds container [a]; a refresh
    fetches container [b].  Between the two assignments of the commit a
    reader that asks for the collection and for the name [b] gets the
    collection of before the refresh, which holds [a] only, with the index
    of after the refresh, which finds [b]: a pair that is neither the one
    of before nor the one of after.  The same holds for the hosts. *)
Theorem commit_not_atomic :
  let a := mkContainer "a" "running" "10.0.0.1" 0 (mkHost "H1" "") in
  let b := mkContainer "b" "running" "10.0.0.2" 0 (mkHost "H1" "") in
  let h1 := mkHost "H1" "host-1" in
  let h2 := mkHost "H2" "host-2" in
  (∃ w w' r,
     refreshContainers (Delivers [Some a]) (mkWorld [] [] empty_repository)
     = Returned w ∧
     refreshContainers (Delivers [Some b]) w = Returned w' ∧
     during (commit_containers_step (containerMap (mcr w')) (containers (mcr w')))
       (AssignIndex, mcr w) (AssignSlice, r) ∧
     during (commit_containers_step (containerMap (mcr w')) (containers (mcr w')))
       (AssignSlice, r) (Send, mcr w') ∧
     read_containers (mcr w) "b"
     = (([Some 0], None), (None, Some ErrContainerNotFound)) ∧
     read_containers r "b" = (([Some 0], None), (Some 1, None)) ∧
     read_containers (mcr w') "b" = (([Some 1], None), (Some 1, None)) ∧
     read_containers r "b" ≠ read_containers (mcr w) "b" ∧
     read_containers r "b" ≠ read_containers (mcr w') "b") ∧
  (∃ w w' r,
     refreshHosts (Delivers [Some h1]) (mkWorld [] [] empty_repository)
     = Returned w ∧
     refreshHosts (Delivers [Some h2]) w = Returned w' ∧
     during (commit_hosts_step (hostMap (mcr w')) (hosts (mcr w')))
       (AssignIndex, mcr w) (AssignSlice, r) ∧
     during (commit_hosts_step (hostMap (mcr w')) (hosts (mcr w')))
       (AssignSlice, r) (Send, mcr w') ∧
     read_hosts (mcr w) "H2" = (([Some 0], None), (None, Some ErrHostNotFound)) ∧
     read_hosts r "H2" = (([Some 0], None), (Some 1, None)) ∧
     read_hosts (mcr w') "H2" = (([Some 1], None), (Some 1, None)) ∧
     read_hosts r "H2" ≠ read_hosts (mcr w) "H2" ∧
     read_hosts r "H2" ≠ read_hosts (mcr w') "H2").
Proof.
  intros a b h1 h2. split.
  - eexists _, _, _. split; [vm_compute; reflexivity|].
    split; [vm_compute; reflexivity|].
    split; [eapply during_later; [reflexivity|apply during_now]|].
    split; [eapply during_later; [vm_compute; reflexivity|apply during_now]|].
    split_and!; by vm_compute.
  - eexists _, _, _. split; [vm_compute; reflexivity|].
    split; [vm_compute; reflexivity|].
    split; [eapply during_later; [reflexivity|apply during_now]|].
    split; [eapply during_later; [vm_compute; reflexivity|apply during_now]|].
    split_and!; by vm_compute.
Qed.

(** ** The two refreshes of a cycle in either order

    They read and write disjoint fields and disjoint stores, so the state
    after both is the same whichever runs first; with it, every interleaving
    of the two goroutines, whose commits are the only writes, ends in this
    state. *)
Lemma refresh_commute rc rh w :
  (wa ← refreshHosts rh w; refreshContainers rc wa)
  = (wa ← refreshContainers rc w; refreshHosts rh wa).
Proof.
  destruct w as [cs hs r].
  destruct rc as [ec| |citems], rh as [eh| |hitems];
    unfold refreshHosts, refreshContainers; simpl; try done.
  - destruct (new_objects hs hitems) as [hheap hps]; simpl.
    by destruct (index_by Host_UUID hheap hps).
  - destruct (new_objects hs hitems) as [hheap hps]; simpl.
    by destruct (index_by Host_UUID hheap hps).
  - destruct (new_objects cs citems) as [cheap cps]; simpl.
    by destruct (index_by Container_Name cheap cps).
  - destruct (new_objects cs citems) as [cheap cps]; simpl.
    by destruct (index_by Container_Name cheap cps).
  - destruct (new_objects hs hitems) as [hheap hps] eqn:Eh.
    destruct (new_objects cs citems) as [cheap cps] eqn:Ec. simpl.
    destruct (index_by Host_UUID hheap hps) as [hm|] eqn:Ehm;
      destruct (index_by Container_Name cheap cps) as [cm|] eqn:Ecm;
      simpl; rewrite ?Eh, ?Ec; simpl; rewrite ?Ehm, ?Ecm; done.
Qed.

(** * The repository between refreshes and lookups *)

(** ** A refresh followed by a lookup *)

Lemma index_empty_iff {A} (key : A → string) (vs : list A) (base : nat)
    (m : gmap string ptr) :
  (∀ k p, m !! k = Some p ↔ ∃ i v, p = Some (base + i) ∧ last_with key vs k i v) →
  m = ∅ ↔ vs = [].
Proof.
  intros Hm. split.
  - intros ->. destruct vs as [|v vs]; [done|].
    destruct (last_with_exists key (v :: vs) (key v)) as (i & v' & Hl).
    { exists v. split; [apply list_elem_of_here|done]. }
    assert ((∅ : gmap string ptr) !! key v = Some (Some (base + i))) as Hx
      by (apply Hm; by exists i, v').
    by rewrite lookup_empty in Hx.
  - intros ->. apply map_empty. intros k.
    destruct (m !! k) as [p|] eqn:E; [|done].
    apply Hm in E as (i & v & _ & Hl & _). by rewrite lookup_nil in Hl.
Qed.

(** X1.  A container refresh whose fetch delivers the containers [cvs],
    followed by a lookup by name: when [cvs] is empty every name is answered
    with [ErrContainerRepoEmpty]; otherwise a name that no fetched container
    carries is answered with [ErrContainerNotFound], and a name that some
    fetched container carries is answered, without an error, with the
    pointer that [Containers] lists at the position of the last fetched
    container of that name, and that pointer leads to that container as
    fetched. *)
Theorem refreshContainers_ContainerByName (cvs : list Container) (w : World) :
  ∃ w',
    refreshContainers (Delivers (Some <$> cvs)) w = Returned w' ∧
    (cvs = [] →
     ∀ name, ContainerByName (mcr w') name = (None, Some ErrContainerRepoEmpty)) ∧
    (cvs ≠ [] →
     ∀ name,
       ((∀ v, v ∈ cvs → Container_Name v ≠ name) →
        ContainerByName (mcr w') name = (None, Some ErrContainerNotFound)) ∧
       (∀ i v, last_with Container_Name cvs name i v →
          ∃ p, ContainerByName (mcr w') name = (p, None) ∧
               deref (container_store w') p = Returned v ∧
               (Containers (mcr w')).1 !! i = Some p)).
Proof.
  destruct (refreshContainers_Delivers cvs w) as (cm & E & Hcm).
  eexists. split; [exact E|]. simpl.
  pose proof (index_empty_iff _ _ _ _ Hcm) as He.
  pose proof (index_None_iff _ _ _ _ Hcm) as Hn.
  split.
  - intros Hnil name. unfold ContainerByName. simpl.
    apply He in Hnil. rewrite decide_True; [done|by apply size_zero_empty].
  - intros Hne name. unfold ContainerByName. simpl.
    rewrite decide_False by (rewrite size_zero_empty, He; done).
    split.
    + intros Hno. apply Hn in Hno. by rewrite Hno.
    + intros i v Hl.
      assert (cm !! name = Some (Some (length (container_store w) + i))) as ->
        by (apply Hcm; by exists i, v).
      eexists. split; [done|]. split.
      * apply deref_Some. rewrite lookup_fresh. apply Hl.
      * rewrite Containers_fst. simpl.
        rewrite cells_lookup, decide_True; [done|].
        by eapply last_with_lt.
Qed.

(** X2.  The same for hosts: after a host refresh that delivers [hvs],
    [HostByUUID] answers [ErrHostRepoEmpty] for every UUID when [hvs] is
    empty, [ErrHostNotFound] for a UUID that no fetched host carries, and
    otherwise the pointer that [Hosts] lists at the position of the last
    fetched host with that UUID, which leads to that host as fetched. *)
Theorem refreshHosts_HostByUUID (hvs : list Host) (w : World) :
  ∃ w',
    refreshHosts (Delivers (Some <$> hvs)) w = Returned w' ∧
    (hvs = [] →
     ∀ uuid, HostByUUID (mcr w') uuid = (None, Some ErrHostRepoEmpty)) ∧
    (hvs ≠ [] →
     ∀ uuid,
       ((∀ v, v ∈ hvs → Host_UUID v ≠ uuid) →
        HostByUUID (mcr w') uuid = (None, Some ErrHostNotFound)) ∧
       (∀ i v, last_with Host_UUID hvs uuid i v →
          ∃ p, HostByUUID (mcr w') uuid = (p, None) ∧
               deref (host_store w') p = Returned v ∧
               (Hosts (mcr w')).1 !! i = Some p)).
Proof.
  destruct (refreshHosts_Delivers hvs w) as (hm & E & Hhm).
  eexists. split; [exact E|]. simpl.
  pose proof (index_empty_iff _ _ _ _ Hhm) as He.
  pose proof (index_None_iff _ _ _ _ Hhm) as Hn.
  split.
  - intros Hnil uuid. unfold HostByUUID. simpl.
    apply He in Hnil. rewrite decide_True; [done|by apply size_zero_empty].
  - intros Hne uuid. unfold HostByUUID. simpl.
    rewrite decide_False by (rewrite size_zero_empty, He; done).
    split.
    + intros Hno. apply Hn in Hno. by rewrite Hno.
    + intros i v Hl.
      assert (hm !! uuid = Some (Some (length (host_store w) + i))) as ->
        by (apply Hhm; by exists i, v).
      eexists. split; [done|]. split.
      * apply deref_Some. rewrite lookup_fresh. apply Hl.
      * rewrite Hosts_fst. simpl.
        rewrite cells_lookup, decide_True; [done|].
        by eapply last_with_lt.
Qed.

(** ** What every state between two cycles satisfies *)

Lemma keyed_fresh {A} (key : A → string) (h vs : list A) (m : gmap string ptr) :
  (∀ k p, m !! k = Some p ↔
     ∃ i v, p = Some (length h + i) ∧ last_with key vs k i v) →
  keyed key (h ++ vs) (cells (length h) (length vs)) m.
Proof.
  intros Hm. split.
  - intros k p (i & v & -> & Hl)%Hm. split.
    + apply elem_of_cells. exists i. split; [done|]. by eapply last_with_lt.
    + exists (length h + i), v. split; [done|].
      rewrite lookup_fresh. destruct Hl as (? & ? & _). done.
  - intros p (i & -> & Hi)%elem_of_cells.
    destruct (lookup_lt_is_Some_2 vs i Hi) as [v Hv].
    exists (length h + i), v. split; [done|]. split; [by rewrite lookup_fresh|].
    destruct (last_with_exists key vs (key v)) as (j & v' & Hl).
    { exists v. split; [by eapply list_elem_of_lookup_2|done]. }
    exists (Some (length h + j)). apply Hm. by exists j, v'.
Qed.

Lemma keyed_wf {A} (key : A → string) (heap : list A) coll idx :
  keyed key heap coll idx →
  Forall (valid heap) coll ∧ map_Forall (λ _ p, p ∈ coll) idx.
Proof.
  intros [Hi Hc]. split.
  - apply Forall_forall. intros p (l & v & -> & Hv & _)%Hc.
    exists l. split; [done|]. by eapply lookup_lt_Some.
  - intros k p Hp. by apply Hi in Hp as [? _].
Qed.

Lemma consistent_wf w : consistent w → wf w.
Proof.
  intros [[??]%keyed_wf [??]%keyed_wf]. by constructor.
Qed.

Lemma keyed_empty_iff {A} (key : A → string) (heap : list A) coll idx :
  keyed key heap coll idx → coll = [] ↔ idx = ∅.
Proof.
  intros [Hi Hc]. split.
  - intros ->. apply map_empty. intros k.
    destruct (idx !! k) as [p|] eqn:E; [|done].
    apply Hi in E as [E _]. by apply elem_of_nil in E.
  - intros ->. destruct coll as [|p coll]; [done|].
    destruct (Hc p) as (l & v & _ & _ & [q Hq]); [apply list_elem_of_here|].
    by rewrite lookup_empty in Hq.
Qed.

(** A store whose cells are rewritten by a function that keeps the key. *)
Lemma keyed_rewritten {A} (key : A → string) (f : A → A) (heap heap' : list A)
    coll idx :
  (∀ v, key (f v) = key v) →
  (∀ l, heap' !! l =
        if decide (Some l ∈ coll) then f <$> heap !! l else heap !! l) →
  keyed key heap coll idx → keyed key heap' coll idx.
Proof.
  intros Hf Hh [Hi Hc]. split.
  - intros k p Hp. destruct (Hi k p Hp) as (Hin & l & v & -> & Hv & Hk).
    split; [done|]. exists l, (f v).
    rewrite Hh, decide_True, Hv by done. by rewrite Hf.
  - intros p Hp. destruct (Hc p Hp) as (l & v & -> & Hv & Hk).
    exists l, (f v). rewrite Hh, decide_True, Hv by done. by rewrite Hf.
Qed.

Lemma consistent_empty : consistent (mkWorld [] [] empty_repository).
Proof.
  split; (split; simpl; [intros k p Hp; by rewrite lookup_empty in Hp
                        |intros p Hp; by apply elem_of_nil in Hp]).
Qed.

Lemma refreshContainers_consistent rc w w' :
  consistent w → refreshContainers rc w = Returned w' → consistent w'.
Proof.
  intros [Hc Hh] E.
  destruct (clean_cases rc) as [[e ->]|[vs ->]].
  { by eapply refreshContainers_Returned_clean. }
  - rewrite refreshContainers_Fails in E. by simplify_eq.
  - destruct (refreshContainers_Delivers vs w) as (cm & E' & Hcm).
    rewrite E' in E. simplify_eq. split; simpl; [|done].
    by apply keyed_fresh.
Qed.

Lemma refreshHosts_consistent rh w w' :
  consistent w → refreshHosts rh w = Returned w' → consistent w'.
Proof.
  intros [Hc Hh] E.
  destruct (clean_cases rh) as [[e ->]|[vs ->]].
  { by eapply refreshHosts_Returned_clean. }
  - rewrite refreshHosts_Fails in E. by simplify_eq.
  - destruct (refreshHosts_Delivers vs w) as (hm & E' & Hhm).
    rewrite E' in E. simplify_eq. split; simpl; [done|].
    by apply keyed_fresh.
Qed.

Lemma cycle_consistent rc rh w w' :
  consistent w → cycle rc rh w = Returned w' → consistent w'.
Proof.
  intros Hw E. rewrite cycle_unfold in E.
  apply bind_Returned in E as (wa & Ea & E).
  apply bind_Returned in E as (wb & Eb & E).
  assert (consistent wb) as Hb.
  { eapply refreshContainers_consistent; [|exact Eb].
    eapply refreshHosts_consistent; [exact Hw|exact Ea]. }
  pose proof (consistent_wf wb Hb) as Hwf.
  destruct (enrichment_spec wb) as (cs' & E' & _ & Hcs').
  { apply Hwf. }
  { by apply wf_hostMap_valid. }
  rewrite E' in E. simplify_eq. destruct Hb as [Hc Hh]. split; simpl; [|done].
  eapply (keyed_rewritten _ (enriched (mcr wb) (host_store wb)));
    [|exact Hcs'|exact Hc].
  intros v. by destruct (enriched_same_upstream (mcr wb) (host_store wb) v).
Qed.

Lemma cachePopulateEvery_consistent schedule w w' :
  consistent w → cachePopulateEvery schedule w = Returned w' → consistent w'.
Proof.
  revert w. induction schedule as [|[rc rh] schedule IH]; intros w Hw E; simpl in E.
  - by simplify_eq.
  - apply bind_Returned in E as (w1 & E1 & E).
    eapply IH; [|exact E]. by eapply cycle_consistent.
Qed.

Lemma ContainerByName_found r name p :
  ContainerByName r name = (p, None) → containerMap r !! name = Some p.
Proof.
  unfold ContainerByName. case_decide; [done|].
  destruct (containerMap r !! name); intros ?; by simplify_eq.
Qed.

(** X3.  In the state that [NewMetadataCachingRepository] returns, after
    any number of cycles with any upstream answers: a lookup by name that
    succeeds returns a pointer that [Containers] lists and that leads to a
    container of exactly that name, and every pointer that [Containers]
    lists leads to a container whose name the lookup finds; the same holds
    for [HostByUUID], [Hosts] and the host UUID.  The writes of the
    enrichment loop do not break this. *)
Theorem lookups_agree_with_keys schedule w :
  NewMetadataCachingRepository schedule = Returned w →
  (∀ name p, ContainerByName (mcr w) name = (p, None) →
     p ∈ (Containers (mcr w)).1 ∧
     ∃ c, deref (container_store w) p = Returned c ∧ Container_Name c = name) ∧
  (∀ uuid p, HostByUUID (mcr w) uuid = (p, None) →
     p ∈ (Hosts (mcr w)).1 ∧
     ∃ h, deref (host_store w) p = Returned h ∧ Host_UUID h = uuid) ∧
  (∀ p, p ∈ (Containers (mcr w)).1 →
     ∃ c q, deref (container_store w) p = Returned c ∧
            ContainerByName (mcr w) (Container_Name c) = (q, None)) ∧
  (∀ p, p ∈ (Hosts (mcr w)).1 →
     ∃ h q, deref (host_store w) p = Returned h ∧
            HostByUUID (mcr w) (Host_UUID h) = (q, None)).
Proof.
  intros E.
  assert (consistent w) as [Hc Hh]
    by (eapply cachePopulateEvery_consistent; [apply consistent_empty|exact E]).
  rewrite Containers_fst, Hosts_fst.
  pose proof (keyed_empty_iff _ _ _ _ Hc) as Hce.
  pose proof (keyed_empty_iff _ _ _ _ Hh) as Hhe.
  destruct Hc as [Hci Hcc], Hh as [Hhi Hhc]. split_and!.
  - intros name p (Hin & l & c & -> & Hl & Hk)%ContainerByName_found%Hci.
    split; [done|]. exists c. split; [by apply deref_Some|done].
  - intros uuid p (Hin & l & h & -> & Hl & Hk)%HostByUUID_found%Hhi.
    split; [done|]. exists h. split; [by apply deref_Some|done].
  - intros p Hp. destruct (Hcc p Hp) as (l & c & -> & Hl & [q Hq]).
    exists c, q. split; [by apply deref_Some|].
    unfold ContainerByName. rewrite decide_False, Hq; [done|].
    rewrite size_zero_empty, <- Hce. intros Hnil. rewrite Hnil in Hp.
    by apply elem_of_nil in Hp.
  - intros p Hp. destruct (Hhc p Hp) as (l & h & -> & Hl & [q Hq]).
    exists h, q. split; [by apply deref_Some|].
    unfold HostByUUID. rewrite decide_False, Hq; [done|].
    rewrite size_zero_empty, <- Hhe. intros Hnil. rewrite Hnil in Hp.
    by apply elem_of_nil in Hp.
Qed.

Lemma lookups_agree_with_keys_witness :
  ∃ w,
    NewMetadataCachingRepository
      [(Delivers [Some (mkContainer "a" "running" "10.0.0.1" 0 (mkHost "H1" ""))],
        Delivers [Some (mkHost "H1" "host-1")])] = Returned w ∧
    ∀ name p, ContainerByName (mcr w) name = (p, None) →
      p ∈ (Containers (mcr w)).1 ∧
      ∃ c, deref (container_store w) p = Returned c ∧ Container_Name c = name.
Proof.
  eexists. split; [vm_compute; reflexivity|].
  refine (proj1 (lookups_agree_with_keys
    [(Delivers [Some (mkContainer "a" "running" "10.0.0.1" 0 (mkHost "H1" ""))],
      Delivers [Some (mkHost "H1" "host-1")])] _ _)).
  vm_compute. reflexivity.
Defined.

(** X4.  In the state that [NewMetadataCachingRepository] returns, the
    bulk and the keyed lookup agree on emptiness: [Containers] reports
    [ErrContainerRepoEmpty] exactly when [ContainerByName] reports it for
    every name, and [Containers] succeeds exactly when [ContainerByName]
    reports it for no name; likewise [Hosts] and [HostByUUID]. *)
Theorem bulk_and_keyed_lookups_agree_on_empty schedule w :
  NewMetadataCachingRepository schedule = Returned w →
  ((Containers (mcr w)).2 = Some ErrContainerRepoEmpty ↔
   ∀ name, ContainerByName (mcr w) name = (None, Some ErrContainerRepoEmpty)) ∧
  ((Containers (mcr w)).2 = None ↔
   ∀ name, ContainerByName (mcr w) name ≠ (None, Some ErrContainerRepoEmpty)) ∧
  ((Hosts (mcr w)).2 = Some ErrHostRepoEmpty ↔
   ∀ uuid, HostByUUID (mcr w) uuid = (None, Some ErrHostRepoEmpty)) ∧
  ((Hosts (mcr w)).2 = None ↔
   ∀ uuid, HostByUUID (mcr w) uuid ≠ (None, Some ErrHostRepoEmpty)).
Proof.
  intros E.
  assert (consistent w) as [Hc Hh]
    by (eapply cachePopulateEvery_consistent; [apply consistent_empty|exact E]).
  apply keyed_empty_iff in Hc, Hh.
  assert (length (containers (mcr w)) = 0 ↔ size (containerMap (mcr w)) = 0)
    as Hc' by (by rewrite length_zero_iff_nil, size_zero_empty).
  assert (length (hosts (mcr w)) = 0 ↔ size (hostMap (mcr w)) = 0)
    as Hh' by (by rewrite length_zero_iff_nil, size_zero_empty).
  unfold Containers, Hosts, ContainerByName, HostByUUID.
  split_and!; repeat case_decide; simpl; try tauto; split; try done;
    try (intros H'; specialize (H' ""); repeat case_match; by simplify_eq);
    try (intros _ ?; repeat case_match; by simplify_eq).
Qed.

Lemma bulk_and_keyed_lookups_agree_on_empty_witness :
  ∃ w,
    NewMetadataCachingRepository
      [(Delivers [Some (mkContainer "a" "running" "10.0.0.1" 0 (mkHost "H1" ""))],
        Fails ErrTransport)] = Returned w ∧
    ((Containers (mcr w)).2 = None ↔
     ∀ name, ContainerByName (mcr w) name ≠ (None, Some ErrContainerRepoEmpty)) ∧
    ((Hosts (mcr w)).2 = Some ErrHostRepoEmpty ↔
     ∀ uuid, HostByUUID (mcr w) uuid = (None, Some ErrHostRepoEmpty)).
Proof.
  eexists. split; [vm_compute; reflexivity|].
  destruct (bulk_and_keyed_lookups_agree_on_empty
    [(Delivers [Some (mkContainer "a" "running" "10.0.0.1" 0 (mkHost "H1" ""))],
      Fails ErrTransport)] _ eq_refl) as (_ & Hc & Hh & _).
  exact (conj Hc Hh).
Defined.

(** ** Host names across cycles *)

(** A populated world for the checks below: container [a] on host [H1],
    both published. *)
Lemma wf_populated :
  wf (mkWorld [mkContainer "a" "running" "10.0.0.1" 0 (mkHost "H1" "host-1")]
        [mkHost "H1" "host-1"]
        (mkRepository [Some 0] {[ "a" := Some 0 ]} [Some 0] {[ "H1" := Some 0 ]})).
Proof.
  constructor; simpl.
  - repeat constructor. exists 0. split; [done|simpl; lia].
  - apply map_Forall_singleton, list_elem_of_here.
  - repeat constructor. exists 0. split; [done|simpl; lia].
  - apply map_Forall_singleton, list_elem_of_here.
Qed.

(** X5.  A cycle in which the container fetch fails and the host fetch
    delivers [hvs] keeps the container collection and index, and runs the
    enrichment loop over the containers of the earlier snapshot against the
    new host index: a published container whose host UUID is among [hvs]
    takes the name of the last such host, its other fields unchanged; a
    published container whose host UUID is not among [hvs] is left exactly
    as it was, with the host name it had (there is no branch that clears
    it), also when [hvs] is empty and [Hosts] answers [ErrHostRepoEmpty];
    containers that are not published are not written. *)
Theorem stale_containers_follow_the_host_index e hvs w :
  wf w →
  ∃ w',
    cycle (Fails e) (Delivers (Some <$> hvs)) w = Returned w' ∧
    containers (mcr w') = containers (mcr w) ∧
    containerMap (mcr w') = containerMap (mcr w) ∧
    length (container_store w') = length (container_store w) ∧
    (hvs = [] → Hosts (mcr w') = ([], Some ErrHostRepoEmpty)) ∧
    (∀ l c, container_store w !! l = Some c →
       Some l ∉ containers (mcr w) → container_store w' !! l = Some c) ∧
    (∀ l c, container_store w !! l = Some c →
       Some l ∈ containers (mcr w) →
       ∃ c', container_store w' !! l = Some c' ∧
             same_upstream_fields c c' ∧
             (∀ j h, last_with Host_UUID hvs (Host_UUID (Container_Host c)) j h →
                     Host_Name (Container_Host c') = Host_Name h) ∧
             ((∀ h, h ∈ hvs → Host_UUID h ≠ Host_UUID (Container_Host c)) →
              c' = c)).
Proof.
  intros Hwf.
  destruct (cycle_clean (Fails e) (Delivers (Some <$> hvs)) w Hwf)
    as (wa & wb & cs' & Ea & Eb & E & _ & _ & _ & _ & _ & _ & Hlen & Hcs').
  { done. }
  { simpl. apply Forall_fmap, Forall_true. by eexists. }
  destruct (refreshHosts_Delivers hvs w) as (hm & Ea' & Hhm).
  rewrite Ea' in Ea. rewrite refreshContainers_Fails in Eb. simplify_eq.
  eexists. split; [exact E|]. simpl in *. split_and!; try done.
  - by intros ->.
  - intros l c Hl Hn. by rewrite Hcs', decide_False.
  - intros l c Hl Hin. rewrite Hcs', decide_True, Hl by done. simpl.
    eexists. split; [done|]. split; [apply enriched_same_upstream|]. split.
    + intros j h Hj.
      erewrite enriched_matched; [by destruct c as [? ? ? ? [? ?]]| |].
      * simpl. apply Hhm. by exists j, h.
      * rewrite lookup_fresh. apply Hj.
    + intros Hno. apply enriched_unmatched. simpl.
      by apply (index_None_iff _ _ _ _ Hhm).
Qed.

Lemma stale_containers_follow_the_host_index_witness :
  ∃ w',
    cycle (Fails ErrTransport) (Delivers [])
      (mkWorld [mkContainer "a" "running" "10.0.0.1" 0 (mkHost "H1" "host-1")]
         [mkHost "H1" "host-1"]
         (mkRepository [Some 0] {[ "a" := Some 0 ]} [Some 0] {[ "H1" := Some 0 ]}))
    = Returned w' ∧
    Hosts (mcr w') = ([], Some ErrHostRepoEmpty) ∧
    ∃ c', container_store w' !! 0 = Some c' ∧
          c' = mkContainer "a" "running" "10.0.0.1" 0 (mkHost "H1" "host-1").
Proof.
  destruct (stale_containers_follow_the_host_index ErrTransport []
              (mkWorld [mkContainer "a" "running" "10.0.0.1" 0 (mkHost "H1" "host-1")]
                 [mkHost "H1" "host-1"]
                 (mkRepository [Some 0] {[ "a" := Some 0 ]} [Some 0]
                    {[ "H1" := Some 0 ]}))
              wf_populated)
    as (w' & Hc & _ & _ & _ & Hh & _ & Hp).
  exists w'. split; [exact Hc|]. split; [apply Hh; reflexivity|].
  destruct (Hp 0 (mkContainer "a" "running" "10.0.0.1" 0 (mkHost "H1" "host-1")))
    as (c' & Hl & _ & _ & Hsame).
  - reflexivity.
  - apply list_elem_of_here.
  - exists c'. split; [exact Hl|]. apply Hsame.
    intros h Hh'. by apply elem_of_nil in Hh'.
Defined.

Lemma cycle_Fails_fixpoint rc rh w w1 e e' :
  wf w →
  cycle rc rh w = Returned w1 →
  cycle (Fails e) (Fails e') w1 = Returned w1.
Proof.
  intros Hwf E.
  destruct (cycle_Returned_clean _ _ _ _ E) as [Hrc Hrh].
  destruct (cycle_clean rc rh w Hwf Hrc Hrh)
    as (wa & wb & cs' & _ & _ & E1 & Hwb & Hw1 & _ & _ & _ & _ & Hlen & Hcs').
  rewrite E1 in E. simplify_eq.
  rewrite cycle_unfold, refreshHosts_Fails. simpl.
  destruct (enrichment_spec (mkWorld cs' (host_store wb) (mcr wb)))
    as (cs'' & E2 & Hlen' & Hcs'').
  { apply Hw1. }
  { by apply (wf_hostMap_valid _ Hw1). }
  simpl in *. rewrite E2. do 2 f_equal.
  apply list_eq. intros l. rewrite Hcs'', Hcs'. case_decide; [|done].
  destruct (container_store wb !! l); [|done]. simpl.
  by rewrite enriched_idemp.
Qed.

(** X6.  Once a cycle has completed from a well-formed state, any number
    of further cycles in which both fetches fail change nothing at all:
    neither the collections, nor the indexes, nor any stored object.  The
    enrichment loop that runs in each of them rewrites every host name with
    the value it already has. *)
Theorem outage_after_cycle_changes_nothing rc rh w w1 outage :
  wf w →
  cycle rc rh w = Returned w1 →
  Forall (λ rr, failure rr.1 ∧ failure rr.2) outage →
  cachePopulateEvery outage w1 = Returned w1.
Proof.
  intros Hwf E. induction 1 as [|[rc' rh'] outage [Hc Hh] _ IH]; [done|].
  simpl in *. destruct rc' as [ec| |]; [|done..]. destruct rh' as [eh| |]; [|done..].
  by rewrite (cycle_Fails_fixpoint rc rh w w1 ec eh Hwf E).
Qed.

Lemma outage_after_cycle_changes_nothing_witness :
  ∃ w1,
    cycle (Delivers [Some (mkContainer "a" "running" "10.0.0.1" 0 (mkHost "H1" ""))])
          (Delivers [Some (mkHost "H1" "host-1")])
          (mkWorld [] [] empty_repository) = Returned w1 ∧
    cachePopulateEvery
      [(Fails ErrTransport, Fails ErrDecode); (Fails ErrDecode, Fails ErrTransport)]
      w1 = Returned w1.
Proof.
  eexists. split; [vm_compute; reflexivity|].
  apply (outage_after_cycle_changes_nothing
           (Delivers [Some (mkContainer "a" "running" "10.0.0.1" 0 (mkHost "H1" ""))])
           (Delivers [Some (mkHost "H1" "host-1")])
           (mkWorld [] [] empty_repository) _
           [(Fails ErrTransport, Fails ErrDecode);
            (Fails ErrDecode, Fails ErrTransport)] wf_empty).
  - vm_compute. reflexivity.
  - repeat constructor.
Defined.

(** * The two goroutines of a cycle, and objects of earlier snapshots *)

(** X7.  [cachePopulateEvery] starts the two refreshes as goroutines and
    waits for both.  Whichever of the two runs first, the state at the wait
    is the same, a panic included: each refresh leaves the other kind's
    collection, index and store as it found them, so the cycle is the
    enrichment loop run on the state that either order gives. *)
Theorem cycle_either_order rc rh w :
  cycle rc rh w =
  (wb ← (wa ← refreshContainers rc w; refreshHosts rh wa);
   foldl (λ acc c, w ← acc; enrich w c) (Returned wb) (Containers (mcr wb)).1) ∧
  (∀ wc wh,
     refreshContainers rc w = Returned wc → refreshHosts rh w = Returned wh →
     ∃ wb,
       refreshHosts rh wc = Returned wb ∧ refreshContainers rc wh = Returned wb ∧
       containers (mcr wb) = containers (mcr wc) ∧
       containerMap (mcr wb) = containerMap (mcr wc) ∧
       container_store wb = container_store wc ∧
       hosts (mcr wb) = hosts (mcr wh) ∧
       hostMap (mcr wb) = hostMap (mcr wh) ∧
       host_store wb = host_store wh).
Proof.
  split.
  - rewrite cycle_unfold, <- refresh_commute.
    by destruct (refreshHosts rh w) as [wa|].
  - intros wc wh Ec Eh. pose proof (refresh_commute rc rh w) as E.
    rewrite Ec, Eh in E. simpl in E.
    destruct (refreshContainers rc wh) as [wb|] eqn:Eb.
    + exists wb. split; [done|]. split; [done|].
      destruct (refreshContainers_frame _ _ _ Eb) as (? & ? & ?).
      symmetry in E. destruct (refreshHosts_frame _ _ _ E) as (? & ? & ?).
      by split_and!.
    + exfalso.
      pose proof (refreshContainers_Returned_clean _ _ _ Ec) as Hc.
      destruct (clean_cases rc Hc) as [[e ->]|[vs ->]].
      * by rewrite refreshContainers_Fails in Eb.
      * destruct (refreshContainers_Delivers vs wh) as (cm & Eb' & _).
        by rewrite Eb' in Eb.
Qed.

Lemma same_upstream_fields_trans c1 c2 c3 :
  same_upstream_fields c1 c2 → same_upstream_fields c2 c3 →
  same_upstream_fields c1 c3.
Proof.
  intros (? & ? & ? & ? & ?) (? & ? & ? & ? & ?).
  unfold same_upstream_fields. split_and!; congruence.
Qed.

Lemma cycle_retired rc rh w w' :
  wf w → cycle rc rh w = Returned w' →
  wf w' ∧
  (∀ l c, container_store w !! l = Some c → Some l ∉ containers (mcr w) →
     container_store w' !! l = Some c ∧ Some l ∉ containers (mcr w')) ∧
  (∀ l h, host_store w !! l = Some h → host_store w' !! l = Some h) ∧
  (∀ l c, container_store w !! l = Some c →
     ∃ c', container_store w' !! l = Some c' ∧ same_upstream_fields c c').
Proof.
  intros Hwf E.
  destruct (cycle_Returned_clean _ _ _ _ E) as [Hrc Hrh].
  destruct (cycle_clean rc rh w Hwf Hrc Hrh)
    as (wa & wb & cs' & _ & _ & E1 & _ & Hw1 & Hhs & _ & Hcs & Hpub & Hlen & Hcs').
  rewrite E1 in E. simplify_eq. simpl. split_and!; [done| | |].
  - intros l c Hl Hn.
    assert (Some l ∉ containers (mcr wb)) as Hn'.
    { rewrite Hpub. destruct rc as [e| |items]; simpl; [done..|].
      intros (i & ? & _)%elem_of_cells. simplify_eq.
      apply lookup_lt_Some in Hl. lia. }
    split; [|done]. rewrite Hcs', decide_False, Hcs by done.
    by apply lookup_app_l_Some.
  - intros l h Hl. rewrite Hhs. by apply lookup_app_l_Some.
  - intros l c Hl.
    assert (container_store wb !! l = Some c) as Hl'
      by (rewrite Hcs; by apply lookup_app_l_Some).
    rewrite Hcs', Hl'. case_decide; simpl.
    + eexists. split; [done|]. apply enriched_same_upstream.
    + eexists. split; [done|]. by unfold same_upstream_fields.
Qed.

(** X8.  Over any number of cycles from a well-formed state: a container
    object that is no longer published is never written again, a host
    object is never written at all, and every container object keeps its
    name, state, private IP, service index and host UUID (only its host
    name may change).  So a caller that holds pointers from an earlier
    snapshot keeps reading the upstream fields it read before. *)
Theorem earlier_objects_over_cycles schedule w w' :
  wf w →
  cachePopulateEvery schedule w = Returned w' →
  (∀ l c, container_store w !! l = Some c → Some l ∉ containers (mcr w) →
     container_store w' !! l = Some c) ∧
  (∀ l h, host_store w !! l = Some h → host_store w' !! l = Some h) ∧
  (∀ l c, container_store w !! l = Some c →
     ∃ c', container_store w' !! l = Some c' ∧ same_upstream_fields c c').
Proof.
  revert w. induction schedule as [|[rc rh] schedule IH]; intros w Hwf E;
    simpl in E.
  - simplify_eq. split_and!; [done..|].
    intros l c Hl. exists c. split; [done|]. by unfold same_upstream_fields.
  - apply bind_Returned in E as (w1 & E1 & E).
    destruct (cycle_retired _ _ _ _ Hwf E1) as (Hwf1 & Hr & Hh & Hu).
    destruct (IH w1 Hwf1 E) as (Hr' & Hh' & Hu'). split_and!.
    + intros l c Hl Hn. destruct (Hr l c Hl Hn) as [Hl1 Hn1]. by apply Hr'.
    + intros l h Hl. by apply Hh', Hh.
    + intros l c Hl. destruct (Hu l c Hl) as (c1 & Hl1 & Hs1).
      destruct (Hu' l c1 Hl1) as (c' & Hl' & Hs').
      exists c'. split; [done|]. by eapply same_upstream_fields_trans.
Qed.

Lemma earlier_objects_over_cycles_witness :
  ∃ w',
    cachePopulateEvery
      [(Delivers [Some (mkContainer "b" "running" "10.0.0.2" 0 (mkHost "H1" ""))],
        Delivers [Some (mkHost "H1" "host-2")]);
       (Fails ErrTransport, Fails ErrTransport)]
      (mkWorld [mkContainer "a" "running" "10.0.0.1" 0 (mkHost "H1" "host-1")]
         [mkHost "H1" "host-1"]
         (mkRepository [Some 0] {[ "a" := Some 0 ]} [Some 0] {[ "H1" := Some 0 ]}))
    = Returned w' ∧
    host_store w' !! 0 = Some (mkHost "H1" "host-1") ∧
    ∃ c', container_store w' !! 0 = Some c' ∧
          same_upstream_fields
            (mkContainer "a" "running" "10.0.0.1" 0 (mkHost "H1" "host-1")) c'.
Proof.
  eexists. split; [vm_compute; reflexivity|].
  destruct (earlier_objects_over_cycles
    [(Delivers [Some (mkContainer "b" "running" "10.0.0.2" 0 (mkHost "H1" ""))],
      Delivers [Some (mkHost "H1" "host-2")]);
     (Fails ErrTransport, Fails ErrTransport)]
    (mkWorld [mkContainer "a" "running" "10.0.0.1" 0 (mkHost "H1" "host-1")]
       [mkHost "H1" "host-1"]
       (mkRepository [Some 0] {[ "a" := Some 0 ]} [Some 0] {[ "H1" := Some 0 ]}))
    _ wf_populated eq_refl) as (_ & Hh & Hu).
  split.
  - apply Hh. reflexivity.
  - apply Hu. reflexivity.
Defined.

(** X18.  From a well-formed state, in particular from the one the
    constructor starts with, the sequence of cycles runs to its end exactly
    when no upstream answer makes a decoder panic or delivers a nil
    pointer; it panics, which in the timer's goroutine ends the process,
    exactly when some answer does.  Errors of the upstream never stop it. *)
Theorem cachePopulateEvery_returns_iff schedule w :
  wf w →
  ((∃ w', cachePopulateEvery schedule w = Returned w') ↔
   Forall (λ rr, clean rr.1 ∧ clean rr.2) schedule) ∧
  (cachePopulateEvery schedule w = Panicked ↔
   ¬ Forall (λ rr, clean rr.1 ∧ clean rr.2) schedule).
Proof.
  intros Hwf.
  assert ((∃ w', cachePopulateEvery schedule w = Returned w') ↔
          Forall (λ rr, clean rr.1 ∧ clean rr.2) schedule) as H.
  { revert w Hwf. induction schedule as [|[rc rh] schedule IH]; intros w Hwf.
    - simpl. split; [constructor|by eexists].
    - simpl. split.
      + intros [w' (w1 & E1 & E)%bind_Returned].
        constructor; [by eapply cycle_Returned_clean|].
        apply (IH w1); [|by eexists].
        eapply (cachePopulateEvery_wf [(rc, rh)] w w1 Hwf).
        simpl. by rewrite E1.
      + intros [[Hc Hh] Hs]%Forall_cons. simpl in *.
        destruct (cycle_clean rc rh w Hwf Hc Hh)
          as (wa & wb & cs' & _ & _ & E1 & _ & Hw1 & _).
        rewrite E1. simpl. by apply IH. }
  split; [done|]. rewrite <- H.
  destruct (cachePopulateEvery schedule w) as [w'|].
  - split; [done|]. intros []. by eexists.
  - split; [|done]. by intros _ [? ?].
Qed.

Lemma cachePopulateEvery_returns_iff_witness :
  ∃ w',
    cachePopulateEvery
      [(Delivers [Some (mkContainer "a" "running" "10.0.0.1" 0 (mkHost "H1" ""))],
        Fails ErrTransport);
       (Fails ErrDecode, Delivers [Some (mkHost "H1" "host-1")])]
      (mkWorld [] [] empty_repository) = Returned w'.
Proof.
  apply (cachePopulateEvery_returns_iff
    [(Delivers [Some (mkContainer "a" "running" "10.0.0.1" 0 (mkHost "H1" ""))],
      Fails ErrTransport);
     (Fails ErrDecode, Delivers [Some (mkHost "H1" "host-1")])]
    (mkWorld [] [] empty_repository) wf_empty).
  repeat constructor; by eexists.
Defined.

(** X19.  Publication comes before enrichment.  In a cycle in which both
    fetches deliver, the state at the wait, which readers can already see,
    has the new containers published exactly as they were decoded, with an
    empty host name, although the host index already holds their hosts.
    The loop that follows changes neither the collections nor the indexes:
    it writes the name of the last host with the container's host UUID into
    objects that are already published. *)
Theorem publication_precedes_enrichment cvs hvs w :
  Forall decoded cvs →
  ∃ wb w',
    (wa ← refreshHosts (Delivers (Some <$> hvs)) w;
     refreshContainers (Delivers (Some <$> cvs)) wa) = Returned wb ∧
    cycle (Delivers (Some <$> cvs)) (Delivers (Some <$> hvs)) w = Returned w' ∧
    mcr w' = mcr wb ∧
    host_store w' = host_store wb ∧
    container_snapshot wb = Returned <$> cvs ∧
    (∀ c, c ∈ cvs → Host_Name (Container_Host c) = "") ∧
    (∀ i c j h,
       cvs !! i = Some c →
       last_with Host_UUID hvs (Host_UUID (Container_Host c)) j h →
       (∃ p, HostByUUID (mcr wb) (Host_UUID (Container_Host c)) = (p, None) ∧
             deref (host_store wb) p = Returned h) ∧
       container_snapshot wb !! i = Some (Returned c) ∧
       container_snapshot w' !! i
       = Some (Returned (set_Host_Name (Host_Name h) c))).
Proof.
  intros Hdec.
  destruct (refreshHosts_Delivers hvs w) as (hm & Hwa & Hhm).
  set (wa := mkWorld _ _ _) in Hwa.
  destruct (refreshContainers_Delivers cvs wa) as (cm & Hwb & Hcm).
  set (wb := mkWorld _ _ _) in Hwb.
  destruct (enrichment_spec wb) as (cs' & Hfold & Hlen & Hchar).
  { apply cells_valid. }
  { intros k p (i & v & -> & Hlw%last_with_lt)%Hhm. simpl.
    exists (length (host_store w) + i). rewrite length_app. split; [done|lia]. }
  simpl in Hfold, Hlen, Hchar.
  apply store_after_enrichment in Hchar; [|done]. subst cs'.
  eexists wb, _. split_and!.
  - rewrite Hwa. simpl. exact Hwb.
  - rewrite cycle_unfold, Hwa. simpl. rewrite Hwb. simpl. exact Hfold.
  - done.
  - done.
  - unfold container_snapshot. rewrite Containers_fst. apply read_all_fresh.
  - intros c Hc. apply decoded_Host_Name.
    by eapply Forall_forall in Hdec.
  - intros i c j h Hi Hj.
    assert (hm !! Host_UUID (Container_Host c)
            = Some (Some (length (host_store w) + j))) as Hm
      by (apply Hhm; by exists j, h).
    assert ((host_store w ++ hvs) !! (length (host_store w) + j) = Some h) as Hh
      by (rewrite lookup_fresh; apply Hj).
    assert (hm ≠ ∅) as Hne by (intros ->; by rewrite lookup_empty in Hm).
    split_and!.
    + exists (Some (length (host_store w) + j)). split.
      * unfold HostByUUID. simpl.
        rewrite decide_False by (by rewrite size_zero_empty). by rewrite Hm.
      * by apply deref_Some.
    + assert (container_snapshot wb = Returned <$> cvs) as ->
        by (unfold container_snapshot; rewrite Containers_fst;
            apply read_all_fresh).
      by rewrite list_lookup_fmap, Hi.
    + match goal with
      | |- container_snapshot ?x !! _ = _ =>
          assert (container_snapshot x
                  = Returned <$> (enriched (mcr wb) (host_store wb) <$> cvs)) as ->
      end.
      { unfold container_snapshot. rewrite Containers_fst. simpl.
        rewrite <- (length_fmap (enriched (mcr wb) (host_store wb)) cvs).
        apply read_all_fresh. }
      rewrite !list_lookup_fmap, Hi. simpl.
      do 2 f_equal. by eapply enriched_matched.
Qed.

Lemma publication_precedes_enrichment_witness :
  ∃ wb w',
    (wa ← refreshHosts (Delivers [Some (mkHost "H1" "host-1")])
            (mkWorld [] [] empty_repository);
     refreshContainers
       (Delivers [Some (mkContainer "a" "running" "10.0.0.1" 0 (mkHost "H1" ""))])
       wa) = Returned wb ∧
    cycle (Delivers [Some (mkContainer "a" "running" "10.0.0.1" 0 (mkHost "H1" ""))])
          (Delivers [Some (mkHost "H1" "host-1")])
          (mkWorld [] [] empty_repository) = Returned w' ∧
    container_snapshot wb
    = [Returned (mkContainer "a" "running" "10.0.0.1" 0 (mkHost "H1" ""))] ∧
    container_snapshot w' !! 0
    = Some (Returned (mkContainer "a" "running" "10.0.0.1" 0 (mkHost "H1" "host-1"))).
Proof.
  destruct (publication_precedes_enrichment
              [mkContainer "a" "running" "10.0.0.1" 0 (mkHost "H1" "")]
              [mkHost "H1" "host-1"]
              (mkWorld [] [] empty_repository))
    as (wb & w' & Hb & Hc & _ & _ & Hs & _ & Hi).
  - constructor; [exact decoded_scenario|constructor].
  - exists wb, w'. split; [exact Hb|]. split; [exact Hc|]. split; [exact Hs|].
    destruct (Hi 0 (mkContainer "a" "running" "10.0.0.1" 0 (mkHost "H1" ""))
                0 (mkHost "H1" "host-1")) as (_ & _ & Hafter).
    + reflexivity.
    + split; [reflexivity|]. split; [reflexivity|].
      intros j v' Hj Hv'. destruct j; [lia|discriminate Hv'].
    + exact Hafter.
Defined.

(** * The server side *)

(** ** The HTTP handlers *)

Lemma ContainerByName_cases r name :
  (containerMap r = ∅ ∧
   ContainerByName r name = (None, Some ErrContainerRepoEmpty)) ∨
  (containerMap r ≠ ∅ ∧ containerMap r !! name = None ∧
   ContainerByName r name = (None, Some ErrContainerNotFound)) ∨
  (containerMap r ≠ ∅ ∧ ∃ c, containerMap r !! name = Some c ∧
   ContainerByName r name = (c, None)).
Proof.
  unfold ContainerByName. case_decide as Hs.
  - left. by apply size_zero_empty in Hs.
  - right. rewrite size_zero_empty in Hs.
    destruct (containerMap r !! name) as [c|]; [right|left]; eauto.
Qed.

(** X9.  The handler of [GET /containers/{name}] always writes a JSON
    reply and never reaches the panic of [encodeHTTPError].  A request
    whose route variable [name] is empty is answered 500 before the
    repository is consulted.  Otherwise the status is 424 with
    [ErrContainerRepoEmpty] when the index is empty, 404 with
    [ErrContainerNotFound] when the index is not empty and does not bind the
    name, and 200 with the bound container when it does.  The request body
    plays no part. *)
Theorem HTTPHandlers_Container_reply (r : metadataCachingRepository)
    (req : http_request) :
  ∃ rep,
    HTTPHandlers_Container r req = Returned rep ∧
    content_type rep = "application/json; charset=utf-8" ∧
    (vars_name req = "" →
     status rep = 500%Z ∧
     body rep = ErrorBody (errors_New "failed to extract container name from URL")) ∧
    (vars_name req ≠ "" →
     (containerMap r = ∅ →
      status rep = 424%Z ∧ body rep = ErrorBody (known ErrContainerRepoEmpty)) ∧
     (containerMap r ≠ ∅ → containerMap r !! vars_name req = None →
      status rep = 404%Z ∧ body rep = ErrorBody (known ErrContainerNotFound)) ∧
     (containerMap r ≠ ∅ → ∀ c, containerMap r !! vars_name req = Some c →
      status rep = 200%Z ∧ body rep = ResponseBody (containerResponse c None))).
Proof.
  unfold HTTPHandlers_Container, kithttp_Server, DecodeHTTPContainerRequest.
  destruct (String.eqb_spec (vars_name req) "") as [Hn|Hn].
  { simpl. eexists. split; [done|]. simpl. by split_and!. }
  unfold ContainerEndpoint, serverService_Container. simpl.
  destruct (ContainerByName_cases r (vars_name req))
    as [[He ->]|[(Hne & Hk & ->)|(Hne & c & Hk & ->)]]; simpl;
    (eexists; split; [done|]); simpl; (split; [done|]); (split; [done|]);
    intros _; split_and!; intros; by simplify_eq.
Qed.

(** X10.  The handler of [GET /containers] always writes a JSON reply and
    never reaches the panic of [encodeHTTPError].  Its decoder reads the
    first JSON value of the request body and nothing after it.  When the
    body holds no value (it is empty or white space only), or its first
    value is [null] or an object (whatever its members and whatever
    follows it), the status is 424 with [ErrContainerRepoEmpty] for an
    empty collection and 200 with the whole collection otherwise.  When the
    first value is of another kind, or the body does not begin with a JSON
    value, the answer is 500 with the decoder's error, before the
    repository is consulted. *)
Theorem HTTPHandlers_Containers_reply (r : metadataCachingRepository)
    (req : http_request) :
  ∃ rep,
    HTTPHandlers_Containers r req = Returned rep ∧
    content_type rep = "application/json; charset=utf-8" ∧
    ((request_body req = empty_body ∨
      request_body req = body_bytes (Some JNull) ∨
      ∃ members, request_body req = body_bytes (Some (JObject members))) →
     (containers r = [] →
      status rep = 424%Z ∧ body rep = ErrorBody (known ErrContainerRepoEmpty)) ∧
     (containers r ≠ [] →
      status rep = 200%Z ∧
      body rep = ResponseBody (containersResponse (containers r) None))) ∧
    (¬ (request_body req = empty_body ∨
        request_body req = body_bytes (Some JNull) ∨
        ∃ members, request_body req = body_bytes (Some (JObject members))) →
     status rep = 500%Z ∧ body rep = ErrorBody (known ErrDecode)).
Proof.
  unfold HTTPHandlers_Containers, kithttp_Server, DecodeHTTPContainersRequest.
  destruct (request_body req) as [|[[]|]] eqn:Eb; simpl;
    try (eexists; split; [done|]; simpl; split_and!; [done| |done];
         intros [?|[?|[? ?]]]; done);
    unfold ContainersEndpoint, serverService_Containers, Containers;
    (case_decide as Hl; [apply length_zero_iff_nil in Hl|
                         rewrite length_zero_iff_nil in Hl]); simpl;
    (eexists; split; [done|]); simpl;
    (split_and!; [done| |intros []; eauto]); intros _; split; intros; done.
Qed.

Lemma HTTPHandlers_Container_eval r name b :
  name ≠ "" →
  HTTPHandlers_Container r (mkRequest name b) =
  match ContainerByName r name with
  | (c, None) =>
      Returned (mkReply 200%Z "application/json; charset=utf-8"
                  (ResponseBody (containerResponse c None)))
  | (_, Some e) => encodeHTTPError (Some (known e))
  end.
Proof.
  intros Hn.
  unfold HTTPHandlers_Container, kithttp_Server, DecodeHTTPContainerRequest.
  simpl. destruct (String.eqb_spec name "") as [|_]; [done|].
  unfold ContainerEndpoint, serverService_Container. simpl.
  destruct (ContainerByName r name) as [c [e|]]; simpl; [|done].
  by destruct e.
Qed.

Lemma HTTPHandlers_Containers_eval r name :
  HTTPHandlers_Containers r (mkRequest name empty_body) =
  match Containers r with
  | (cs, None) =>
      Returned (mkReply 200%Z "application/json; charset=utf-8"
                  (ResponseBody (containersResponse cs None)))
  | (_, Some e) => encodeHTTPError (Some (known e))
  end.
Proof.
  unfold HTTPHandlers_Containers, kithttp_Server, DecodeHTTPContainersRequest.
  simpl. unfold ContainersEndpoint, serverService_Containers.
  destruct (Containers r) as [cs [e|]]; simpl; [|done].
  by destruct e.
Qed.

(** X11.  The two handlers over the state that
    [NewMetadataCachingRepository] returns, for a request with a non-empty
    name: the single-container handler answers 424 exactly when the
    collection handler does; it answers 200 or 404 exactly when the
    collection handler answers 200.  A 200 reply carries a pointer that the
    collection handler's reply lists as well and that leads to a container
    of the requested name; after a 404 reply every container of the
    collection handler's reply has another name. *)
Theorem handlers_agree schedule w name b :
  NewMetadataCachingRepository schedule = Returned w →
  name ≠ "" →
  ∃ one all,
    HTTPHandlers_Container (mcr w) (mkRequest name b) = Returned one ∧
    HTTPHandlers_Containers (mcr w) (mkRequest "" empty_body) = Returned all ∧
    (status one = 424%Z ↔ status all = 424%Z) ∧
    (status one = 200%Z ∨ status one = 404%Z ↔ status all = 200%Z) ∧
    (status one = 200%Z →
     ∃ p c cs,
       body one = ResponseBody (containerResponse p None) ∧
       body all = ResponseBody (containersResponse cs None) ∧
       p ∈ cs ∧
       deref (container_store w) p = Returned c ∧ Container_Name c = name) ∧
    (status one = 404%Z →
     ∃ cs,
       body all = ResponseBody (containersResponse cs None) ∧
       ∀ p, p ∈ cs →
         ∃ c, deref (container_store w) p = Returned c ∧ Container_Name c ≠ name).
Proof.
  intros E Hn.
  assert (consistent w) as [Hc _]
    by (eapply cachePopulateEvery_consistent; [apply consistent_empty|exact E]).
  pose proof (keyed_empty_iff _ _ _ _ Hc) as He. destruct Hc as [Hi Hc].
  rewrite HTTPHandlers_Container_eval, HTTPHandlers_Containers_eval by done.
  unfold Containers. case_decide as Hl; rewrite length_zero_iff_nil in Hl; simpl.
  - destruct (ContainerByName_cases (mcr w) name)
      as [[Hm ->]|[(Hm & _)|(Hm & _)]]; [|by apply He in Hl..].
    simpl. do 2 eexists. split_and!; try done; simpl; intros; try done.
    by intuition.
  - destruct (ContainerByName_cases (mcr w) name)
      as [[Hm _]|[(Hm & Hk & ->)|(Hm & p & Hk & ->)]]; [by apply He in Hm| |].
    + simpl. do 2 eexists. split_and!; try done; simpl; try by intuition.
      intros _. eexists. split; [done|]. intros p Hp.
      destruct (Hc p Hp) as (l & c & -> & Hl' & [q Hq]).
      exists c. split; [by apply deref_Some|]. intros Hname.
      rewrite Hname in Hq. by rewrite Hk in Hq.
    + simpl. do 2 eexists. split_and!; try done; simpl; try by intuition.
      intros _. destruct (Hi name p Hk) as (Hin & l & c & -> & Hl' & Hname).
      exists (Some l), c, (containers (mcr w)). split_and!; try done.
      by apply deref_Some.
Qed.

Lemma handlers_agree_witness :
  ∃ w one all,
    NewMetadataCachingRepository
      [(Delivers [Some (mkContainer "a" "running" "10.0.0.1" 0 (mkHost "H1" ""))],
        Delivers [Some (mkHost "H1" "host-1")])] = Returned w ∧
    HTTPHandlers_Container (mcr w) (mkRequest "a" empty_body) = Returned one ∧
    HTTPHandlers_Containers (mcr w) (mkRequest "" empty_body) = Returned all ∧
    (status one = 424%Z ↔ status all = 424%Z).
Proof.
  eexists.
  destruct (handlers_agree
    [(Delivers [Some (mkContainer "a" "running" "10.0.0.1" 0 (mkHost "H1" ""))],
      Delivers [Some (mkHost "H1" "host-1")])] _ "a" empty_body eq_refl)
    as (one & all & H1 & H2 & H3 & _).
  - discriminate.
  - exists one, all. split; [reflexivity|]. split; [exact H1|].
    split; [exact H2|exact H3].
Defined.

(** * The payload decoders *)

Lemma decode_slice_cons {A} (unmarshal : raw → outcome (A * option error))
    j items :
  j ≠ JNull →
  decode_slice unmarshal (j :: items) =
  ('(o, err) ← unmarshal (Some j);
   match err with
   | Some e => Returned ([], Some e)
   | None =>
       '(ps, err) ← decode_slice unmarshal items;
       Returned (Some o :: ps, err)
   end).
Proof. by destruct j. Qed.

Lemma decode_slice_Returned {A} (unmarshal : raw → outcome (A * option error))
    items vs :
  decode_slice unmarshal items = Returned (vs, None) ↔
  Forall2 (decodes_to unmarshal) items vs.
Proof.
  revert vs. induction items as [|j items IH]; intros vs.
  - simpl. split.
    + intros ?; simplify_eq. constructor.
    + by intros ->%Forall2_nil_inv_l.
  - assert (j = JNull ∨ j ≠ JNull) as [->|Hj]
      by (destruct j; first [by left|by right]).
    + simpl. split.
      * intros ([ps err] & E & ?)%bind_Returned. simplify_eq/=.
        constructor; [done|]. by apply IH.
      * intros (v & vs' & Hv & Hvs & ->)%Forall2_cons_inv_l.
        destruct v as [o|]; [by destruct Hv|].
        apply IH in Hvs. by rewrite Hvs.
    + rewrite decode_slice_cons by done. split.
      * intros ([o err] & E & E')%bind_Returned.
        destruct err as [e|]; [by simplify_eq|].
        apply bind_Returned in E' as ([ps err] & E' & ?). simplify_eq/=.
        constructor; [done|]. by apply IH.
      * intros (v & vs' & Hv & Hvs & ->)%Forall2_cons_inv_l.
        destruct v as [o|]; [|done]. destruct Hv as [_ Hv].
        rewrite Hv. simpl. apply IH in Hvs. by rewrite Hvs.
Qed.

Lemma decode_response_Delivers {A}
    (unmarshal : raw → outcome (A * option error)) b vs :
  decode_response unmarshal b = Delivers vs ↔
  (b = body_bytes (Some JNull) ∧ vs = []) ∨
  (∃ items, b = body_bytes (Some (JArray items)) ∧
            Forall2 (decodes_to unmarshal) items vs).
Proof.
  split.
  - destruct b as [|[[]|]]; simpl; try done.
    + intros ?; simplify_eq. by left.
    + destruct (decode_slice unmarshal items) as [[ps [e|]]|] eqn:E; try done.
      intros ?; simplify_eq. right. eexists. split; [done|].
      by apply decode_slice_Returned.
  - intros [[-> ->]|(items & -> & H)]; [done|]. simpl.
    apply decode_slice_Returned in H. by rewrite H.
Qed.

(** X12.  [decodeMetadataContainersResponse] and
    [decodeMetadataHostsResponse] read the first JSON value of the body and
    nothing after it, and deliver a slice in exactly two cases: that value
    is [null], and the slice is empty; or it is an array each of whose
    elements is [null], giving a nil pointer, or a value that the type's
    [UnmarshalJSON] turns into a fresh object without an error, and the
    slice has one pointer per element, in order.  Every container so
    delivered has an empty host name. *)
Theorem decodeMetadataResponse_Delivers (b : message_body) :
  (∀ cs, decodeMetadataContainersResponse b = Delivers cs ↔
     (b = body_bytes (Some JNull) ∧ cs = []) ∨
     (∃ items, b = body_bytes (Some (JArray items)) ∧
        Forall2 (decodes_to (Container_UnmarshalJSON zero_Container)) items cs)) ∧
  (∀ hs, decodeMetadataHostsResponse b = Delivers hs ↔
     (b = body_bytes (Some JNull) ∧ hs = []) ∨
     (∃ items, b = body_bytes (Some (JArray items)) ∧
        Forall2 (decodes_to (Host_UnmarshalJSON zero_Host)) items hs)) ∧
  (∀ cs c, decodeMetadataContainersResponse b = Delivers cs →
     Some c ∈ cs → decoded c ∧ Host_Name (Container_Host c) = "").
Proof.
  split_and!.
  - intros cs. apply decode_response_Delivers.
  - intros hs. apply decode_response_Delivers.
  - intros cs c [[_ ->]|(items & _ & H)]%decode_response_Delivers Hc.
    { by apply elem_of_nil in Hc. }
    apply list_elem_of_lookup_1 in Hc as [i Hi].
    destruct (Forall2_lookup_r _ _ _ _ _ H Hi) as (j & _ & _ & Hj).
    assert (decoded c) as Hd by (by eexists).
    split; [done|]. by apply decoded_Host_Name.
Qed.

Lemma decode_slice_app_error {A} (unmarshal : raw → outcome (A * option error))
    pre bad post vs o e :
  Forall2 (decodes_to unmarshal) pre vs →
  bad ≠ JNull →
  unmarshal (Some bad) = Returned (o, Some e) →
  ∃ ps, decode_slice unmarshal (pre ++ bad :: post) = Returned (ps, Some e).
Proof.
  intros Hpre Hbad Hu. induction Hpre as [|j v pre vs Hj _ [ps IH]]; cbn [app].
  - rewrite decode_slice_cons by done. rewrite Hu. by eexists.
  - destruct v as [v|]; simpl in Hj.
    + destruct Hj as [Hj Hv]. rewrite decode_slice_cons by done.
      rewrite Hv. simpl. rewrite IH. by eexists.
    + subst j. simpl. rewrite IH. by eexists.
Qed.

Lemma decode_slice_app_panic {A} (unmarshal : raw → outcome (A * option error))
    pre bad post vs :
  Forall2 (decodes_to unmarshal) pre vs →
  bad ≠ JNull →
  unmarshal (Some bad) = Panicked →
  decode_slice unmarshal (pre ++ bad :: post) = Panicked.
Proof.
  intros Hpre Hbad Hu. induction Hpre as [|j v pre vs Hj _ IH]; cbn [app].
  - rewrite decode_slice_cons by done. by rewrite Hu.
  - destruct v as [v|]; simpl in Hj.
    + destruct Hj as [Hj Hv]. rewrite decode_slice_cons by done.
      rewrite Hv. simpl. by rewrite IH.
    + subst j. simpl. by rewrite IH.
Qed.

Lemma Container_UnmarshalJSON_not_object c v :
  v ≠ JNull → (∀ members, v = JObject members → representable v = false) →
  Container_UnmarshalJSON c (Some v) = Returned (c, Some ErrDecode).
Proof.
  intros Hn Ho. destruct v; try done.
  unfold Container_UnmarshalJSON.
  by rewrite (json_Unmarshal_map_unrepresentable _ (Ho _ eq_refl)).
Qed.

Lemma Host_UnmarshalJSON_not_object h v :
  v ≠ JNull → (∀ members, v = JObject members → representable v = false) →
  Host_UnmarshalJSON h (Some v) = Returned (h, Some ErrDecode).
Proof.
  intros Hn Ho. destruct v; try done.
  unfold Host_UnmarshalJSON.
  by rewrite (json_Unmarshal_map_unrepresentable _ (Ho _ eq_refl)).
Qed.

(** X13.  A payload that cannot be decoded leaves the repository as it
    is.  The decoder reads the first JSON value of the body and nothing
    after it; the refresh returns with collection, index and stores
    unchanged for a body that holds no value (it is empty or white space
    only), for a body that does not begin with a JSON value, for a first
    value that is neither an array nor [null], and for an array in which
    the first element that is neither [null] nor decodable is no object (a
    number, a string, a boolean or an array) or is an object holding a
    number that does not fit a [float64]. *)
Theorem undecodable_payload_keeps_snapshot (w : World) :
  (∀ b,
     b = empty_body ∨ b = body_bytes None ∨
     (∃ v, b = body_bytes (Some v) ∧ v ≠ JNull ∧ ∀ items, v ≠ JArray items) →
     refreshContainers (decodeMetadataContainersResponse b) w = Returned w ∧
     refreshHosts (decodeMetadataHostsResponse b) w = Returned w) ∧
  (∀ pre bad post cs,
     Forall2 (decodes_to (Container_UnmarshalJSON zero_Container)) pre cs →
     bad ≠ JNull →
     (∀ members, bad = JObject members → representable bad = false) →
     refreshContainers
       (decodeMetadataContainersResponse
          (body_bytes (Some (JArray (pre ++ bad :: post))))) w
     = Returned w) ∧
  (∀ pre bad post hs,
     Forall2 (decodes_to (Host_UnmarshalJSON zero_Host)) pre hs →
     bad ≠ JNull →
     (∀ members, bad = JObject members → representable bad = false) →
     refreshHosts
       (decodeMetadataHostsResponse
          (body_bytes (Some (JArray (pre ++ bad :: post))))) w
     = Returned w).
Proof.
  split_and!.
  - intros b [->|[->|(v & -> & Hn & Ha)]]; [done..|].
    destruct v; try done. by destruct (Ha items).
  - intros pre bad post cs Hpre Hn Ho.
    unfold decodeMetadataContainersResponse, decode_response.
    destruct (decode_slice_app_error (Container_UnmarshalJSON zero_Container)
                pre bad post cs zero_Container ErrDecode) as [ps ->];
      [done..|by apply Container_UnmarshalJSON_not_object|].
    apply refreshContainers_Fails.
  - intros pre bad post hs Hpre Hn Ho.
    unfold decodeMetadataHostsResponse, decode_response.
    destruct (decode_slice_app_error (Host_UnmarshalJSON zero_Host)
                pre bad post hs zero_Host ErrDecode) as [ps ->];
      [done..|by apply Host_UnmarshalJSON_not_object|].
    apply refreshHosts_Fails.
Qed.

(** X14.  A body [null] is no error: as the empty array, it is taken for
    a list of zero objects.  A container refresh on either body replaces the
    collection and the index by empty ones, whatever they held, so that
    [Containers] and every [ContainerByName] answer
    [ErrContainerRepoEmpty]; the host side is not touched.  The same holds
    for a host refresh, with the container side not touched. *)
Theorem empty_payload_empties_repository (w : World) :
  (∀ b, b = body_bytes (Some JNull) ∨ b = body_bytes (Some (JArray [])) →
     ∃ w', refreshContainers (decodeMetadataContainersResponse b) w = Returned w' ∧
           Containers (mcr w') = ([], Some ErrContainerRepoEmpty) ∧
           (∀ name, ContainerByName (mcr w') name
                    = (None, Some ErrContainerRepoEmpty)) ∧
           container_store w' = container_store w ∧
           Hosts (mcr w') = Hosts (mcr w) ∧
           (∀ uuid, HostByUUID (mcr w') uuid = HostByUUID (mcr w) uuid)) ∧
  (∀ b, b = body_bytes (Some JNull) ∨ b = body_bytes (Some (JArray [])) →
     ∃ w', refreshHosts (decodeMetadataHostsResponse b) w = Returned w' ∧
           Hosts (mcr w') = ([], Some ErrHostRepoEmpty) ∧
           (∀ uuid, HostByUUID (mcr w') uuid = (None, Some ErrHostRepoEmpty)) ∧
           host_store w' = host_store w ∧
           Containers (mcr w') = Containers (mcr w) ∧
           (∀ name, ContainerByName (mcr w') name = ContainerByName (mcr w) name)).
Proof.
  split; intros b [-> | ->]; eexists; (split; [done|]); by split_and!.
Qed.

(** X15.  Payload arrays on which a refresh panics instead of failing: an
    array whose elements are all decodable or [null], with at least one
    [null], is delivered with a nil pointer, and the loop that builds the
    index dereferences it; and an array in which the first element that is
    neither [null] nor decodable makes [UnmarshalJSON] panic.  Both hold for
    containers and for hosts. *)
Theorem faulty_element_panics (w : World) :
  (∀ items cs,
     Forall2 (decodes_to (Container_UnmarshalJSON zero_Container)) items cs →
     JNull ∈ items →
     refreshContainers
       (decodeMetadataContainersResponse (body_bytes (Some (JArray items)))) w
     = Panicked) ∧
  (∀ items hs,
     Forall2 (decodes_to (Host_UnmarshalJSON zero_Host)) items hs →
     JNull ∈ items →
     refreshHosts
       (decodeMetadataHostsResponse (body_bytes (Some (JArray items)))) w
     = Panicked) ∧
  (∀ pre bad post cs,
     Forall2 (decodes_to (Container_UnmarshalJSON zero_Container)) pre cs →
     bad ≠ JNull →
     Container_UnmarshalJSON zero_Container (Some bad) = Panicked →
     refreshContainers
       (decodeMetadataContainersResponse
          (body_bytes (Some (JArray (pre ++ bad :: post))))) w
     = Panicked) ∧
  (∀ pre bad post hs,
     Forall2 (decodes_to (Host_UnmarshalJSON zero_Host)) pre hs →
     bad ≠ JNull →
     Host_UnmarshalJSON zero_Host (Some bad) = Panicked →
     refreshHosts
       (decodeMetadataHostsResponse
          (body_bytes (Some (JArray (pre ++ bad :: post))))) w
     = Panicked).
Proof.
  assert (∀ A (unmarshal : raw → outcome (A * option error)) items vs,
            Forall2 (decodes_to unmarshal) items vs → JNull ∈ items →
            ¬ clean (decode_response unmarshal (body_bytes (Some (JArray items)))))
    as Hnull.
  { intros A unmarshal items vs H Hin. simpl.
    rewrite (proj2 (decode_slice_Returned unmarshal items vs) H). simpl.
    apply list_elem_of_lookup_1 in Hin as [i Hi].
    destruct (Forall2_lookup_l _ _ _ _ _ H Hi) as ([v|] & Hv & Hd).
    { by destruct Hd. }
    intros Hall. eapply Forall_lookup_1 in Hall; [|exact Hv].
    by destruct Hall. }
  split_and!.
  - intros items cs H Hin. apply refreshContainers_not_clean. by eapply Hnull.
  - intros items hs H Hin. apply refreshHosts_not_clean. by eapply Hnull.
  - intros pre bad post cs Hpre Hn Hp.
    unfold decodeMetadataContainersResponse, decode_response.
    by erewrite decode_slice_app_panic.
  - intros pre bad post hs Hpre Hn Hp.
    unfold decodeMetadataHostsResponse, decode_response.
    by erewrite decode_slice_app_panic.
Qed.

(** * The service index of a decoded container *)

Lemma ParseUint_loop_range s n :
  (0 ≤ n ≤ strconv.maxUint64)%Z →
  (0 ≤ (strconv.ParseUint_loop s n).1 ≤ strconv.maxUint64)%Z ∧
  ((strconv.ParseUint_loop s n).2 = Some strconv.ErrSyntax →
   (strconv.ParseUint_loop s n).1 = 0%Z).
Proof.
  revert n. induction s as [|c s IH]; intros n Hn; simpl.
  - done.
  - destruct (strconv.digit c) as [d|]; simpl; [|done].
    destruct (strconv.cutoff10 <=? n)%Z; simpl; [done|].
    destruct ((_ <? _)%Z || (_ <? _)%Z); simpl; [done|].
    apply IH. unfold strconv.maxUint64.
    pose proof (Z.mod_pos_bound (n * 10 + d) (2 ^ 64)). lia.
Qed.

Lemma ParseUint_range s :
  (0 ≤ (strconv.ParseUint s).1 ≤ strconv.maxUint64)%Z ∧
  ((strconv.ParseUint s).2 = Some strconv.ErrSyntax →
   (strconv.ParseUint s).1 = 0%Z).
Proof.
  destruct s as [|c s]; [done|].
  apply ParseUint_loop_range. done.
Qed.

Lemma ParseInt_range s :
  (- 2 ^ 63 ≤ (strconv.ParseInt s).1 ≤ 2 ^ 63 - 1)%Z ∧
  ((strconv.ParseInt s).2 = Some strconv.ErrSyntax →
   (strconv.ParseInt s).1 = 0%Z) ∧
  ((strconv.ParseInt s).2 = Some strconv.ErrRange →
   (strconv.ParseInt s).1 = (2 ^ 63 - 1)%Z ∨
   (strconv.ParseInt s).1 = (- 2 ^ 63)%Z).
Proof.
  destruct s as [|c0 rest]; [simpl; split_and!; [lia..|done|done]|].
  unfold strconv.ParseInt.
  destruct (if Ascii.eqb c0 "+" then (false, rest)
            else if Ascii.eqb c0 "-" then (true, rest)
            else (false, String c0 rest)) as [neg s1].
  pose proof (ParseUint_range s1) as [Hr _].
  destruct (strconv.ParseUint s1) as [un [[]|]]; simpl in *;
    try (split_and!; [lia..|done|done]);
    destruct neg; simpl;
    repeat (match goal with
            | |- context [(?a <=? ?b)%Z] => destruct (Z.leb_spec a b)
            | |- context [(?a <? ?b)%Z] => destruct (Z.ltb_spec a b)
            end; simpl);
    (split_and!; [lia..|done|first [done|auto]]).
Qed.

(** X16.  The error of [strconv.ParseInt] is dropped, so no string in the
    service-index member makes [Container.UnmarshalJSON] fail.  On an
    object that [json.Unmarshal] accepts (every number in it fits a
    [float64]), with string name, state and private IP, with a host
    identifier that is a string, [null] or missing, and with a service
    index that is any string [s], the decoder returns without an error, and
    [ServiceIndex] is the value [ParseInt] hands back with its error.  That
    value always lies in the range of [int64]; it is 0, the value that
    marks an orphaned container, when [s] is not a number, and the largest
    or the smallest [int64] when [s] is a number out of range. *)
Theorem Container_UnmarshalJSON_service_index members name state ip s :
  let data := (json_Unmarshal_map (Some (JObject members))).1 in
  representable (JObject members) = true →
  data !! "name" = Some (JString name) →
  data !! "state" = Some (JString state) →
  data !! "primary_ip" = Some (JString ip) →
  data !! "service_index" = Some (JString s) →
  (absent_or_null data "host_uuid" ∨
   ∃ u, data !! "host_uuid" = Some (JString u)) →
  ∃ c,
    Container_UnmarshalJSON zero_Container (Some (JObject members))
      = Returned (c, None) ∧
    Container_ServiceIndex c = (strconv.ParseInt s).1 ∧
    (- 2 ^ 63 ≤ Container_ServiceIndex c ≤ 2 ^ 63 - 1)%Z ∧
    ((strconv.ParseInt s).2 = Some strconv.ErrSyntax →
     Container_ServiceIndex c = 0%Z) ∧
    ((strconv.ParseInt s).2 = Some strconv.ErrRange →
     Container_ServiceIndex c = (2 ^ 63 - 1)%Z ∨
     Container_ServiceIndex c = (- 2 ^ 63)%Z).
Proof.
  intros data Hrep Hn Hs Hi Hsi Hhu.
  eexists. split.
  { apply Container_UnmarshalJSON_object; [done..|by right; eexists|done]. }
  fold data. rewrite (index_lookup _ _ _ Hsi). simpl.
  destruct (ParseInt_range s) as (Hr & Hy & Hg).
  split_and!; [done|apply Hr..|done|done].
Qed.

Lemma Container_UnmarshalJSON_service_index_witness :
  ∃ c,
    Container_UnmarshalJSON zero_Container
      (Some (JObject [("name", JString "a"); ("state", JString "running");
                      ("primary_ip", JString "10.0.0.1");
                      ("service_index", JString "1x");
                      ("create_index", JNumber "3")]))
      = Returned (c, None) ∧
    Container_ServiceIndex c = 0%Z.
Proof.
  destruct (Container_UnmarshalJSON_service_index
              [("name", JString "a"); ("state", JString "running");
               ("primary_ip", JString "10.0.0.1");
               ("service_index", JString "1x");
               ("create_index", JNumber "3")] "a" "running" "10.0.0.1" "1x")
    as (c & Hc & _ & _ & Hsyntax & _).
  - vm_compute. reflexivity.
  - vm_compute. reflexivity.
  - vm_compute. reflexivity.
  - vm_compute. reflexivity.
  - vm_compute. reflexivity.
  - left. left. vm_compute. reflexivity.
  - exists c. split; [exact Hc|]. apply Hsyntax. vm_compute. reflexivity.
Defined.

(** * The outcomes of the decoders on an object *)

Lemma index_is_string data k s :
  index data k = JString s → data !! k = Some (JString s).
Proof. unfold index. by destruct (data !! k); simpl; intros ?; simplify_eq. Qed.

Lemma Container_UnmarshalJSON_no_error c members c' e :
  representable (JObject members) = true →
  Container_UnmarshalJSON c (Some (JObject members)) ≠ Returned (c', Some e).
Proof.
  intros Hrep. unfold Container_UnmarshalJSON.
  set (data := (json_Unmarshal_map (Some (JObject members))).1).
  rewrite (json_Unmarshal_map_representable _ Hrep). fold data.
  cbv iota beta.
  case_member data "name". case_member data "state".
  case_member data "primary_ip".
  case_member data "service_index"; case_member data "host_uuid".
Qed.

Lemma Host_UnmarshalJSON_no_error h members h' e :
  representable (JObject members) = true →
  Host_UnmarshalJSON h (Some (JObject members)) ≠ Returned (h', Some e).
Proof.
  intros Hrep. unfold Host_UnmarshalJSON.
  set (data := (json_Unmarshal_map (Some (JObject members))).1).
  rewrite (json_Unmarshal_map_representable _ Hrep). fold data.
  cbv iota beta.
  case_member data "uuid". case_member data "name".
Qed.

Lemma Container_UnmarshalJSON_success c members :
  representable (JObject members) = true →
  (∃ c', Container_UnmarshalJSON c (Some (JObject members)) = Returned (c', None))
  ↔ container_members_ok (json_Unmarshal_map (Some (JObject members))).1.
Proof.
  intros Hrep.
  set (data := (json_Unmarshal_map (Some (JObject members))).1).
  split.
  - intros [c' E]. revert E. unfold Container_UnmarshalJSON.
    rewrite (json_Unmarshal_map_representable _ Hrep). fold data.
    cbv iota beta. unfold container_members_ok, is_string.
    case_member data "name". case_member data "state".
    case_member data "primary_ip".
    case_member data "service_index"; case_member data "host_uuid";
      intros _; split_and!; eauto.
  - intros ([n Hn] & [s Hs] & [i Hi] & Hsi & Hhu).
    eexists. apply Container_UnmarshalJSON_object.
    + done.
    + apply index_is_string, Hn.
    + apply index_is_string, Hs.
    + apply index_is_string, Hi.
    + destruct Hsi as [H|[x H]].
      * left. by apply absent_or_null_index.
      * right. exists x. by apply index_is_string.
    + destruct Hhu as [H|[x H]].
      * left. by apply absent_or_null_index.
      * right. exists x. by apply index_is_string.
Qed.

Lemma Host_UnmarshalJSON_success h members h' :
  representable (JObject members) = true →
  Host_UnmarshalJSON h (Some (JObject members)) = Returned (h', None)
  ↔ index (json_Unmarshal_map (Some (JObject members))).1 "uuid"
      = JString (Host_UUID h') ∧
    index (json_Unmarshal_map (Some (JObject members))).1 "name"
      = JString (Host_Name h').
Proof.
  intros Hrep.
  set (data := (json_Unmarshal_map (Some (JObject members))).1).
  unfold Host_UnmarshalJSON.
  rewrite (json_Unmarshal_map_representable _ Hrep). fold data.
  cbv iota beta. destruct h' as [u n]. simpl.
  destruct (index data "uuid"); simpl; try (split; [done|by intros [? ?]]).
  destruct (index data "name"); simpl; try (split; [done|by intros [? ?]]).
  split; [intros ?; by simplify_eq|intros [? ?]; by simplify_eq].
Qed.

(** X17.  The outcomes of the two decoders on a JSON object, whatever the
    receiver holds.  When some number in the object, at any depth, does not
    fit a [float64], [json.Unmarshal] returns an error and the decoder
    returns it at once, leaving the receiver as it was, before any member
    is looked at.  On every other object the decoder never returns an
    error: it succeeds or it panics.  [Container.UnmarshalJSON] then
    succeeds exactly when the members name, state and primary_ip are
    strings and each of service_index and host_uuid is a string, [null] or
    missing, and panics otherwise; [Host.UnmarshalJSON] succeeds exactly
    when uuid and name are strings, and the host it leaves has that UUID
    and that name.  Members beyond these play no other part. *)
Theorem UnmarshalJSON_object_outcomes members :
  let data := (json_Unmarshal_map (Some (JObject members))).1 in
  (representable (JObject members) = false →
   (∀ c, Container_UnmarshalJSON c (Some (JObject members))
         = Returned (c, Some ErrDecode)) ∧
   (∀ h, Host_UnmarshalJSON h (Some (JObject members))
         = Returned (h, Some ErrDecode))) ∧
  (representable (JObject members) = true →
   (∀ c,
      (∀ c' e, Container_UnmarshalJSON c (Some (JObject members))
               ≠ Returned (c', Some e)) ∧
      ((∃ c', Container_UnmarshalJSON c (Some (JObject members))
              = Returned (c', None)) ↔ container_members_ok data) ∧
      (Container_UnmarshalJSON c (Some (JObject members)) = Panicked
       ↔ ¬ container_members_ok data)) ∧
   (∀ h,
      (∀ h' e, Host_UnmarshalJSON h (Some (JObject members))
               ≠ Returned (h', Some e)) ∧
      ((∃ h', Host_UnmarshalJSON h (Some (JObject members))
              = Returned (h', None)) ↔ host_members_ok data) ∧
      (Host_UnmarshalJSON h (Some (JObject members)) = Panicked
       ↔ ¬ host_members_ok data) ∧
      (∀ h', Host_UnmarshalJSON h (Some (JObject members)) = Returned (h', None) →
             index data "uuid" = JString (Host_UUID h') ∧
             index data "name" = JString (Host_Name h')))).
Proof.
  intros data. split.
  { intros Hrep. split; intros x.
    - unfold Container_UnmarshalJSON.
      by rewrite (json_Unmarshal_map_unrepresentable _ Hrep).
    - unfold Host_UnmarshalJSON.
      by rewrite (json_Unmarshal_map_unrepresentable _ Hrep). }
  intros Hrep. split.
  - intros c. pose proof (Container_UnmarshalJSON_success c members Hrep) as Hs.
    pose proof (Container_UnmarshalJSON_no_error c members) as Hne.
    split; [intros c' e; by apply Hne|].
    split; [done|]. fold data in Hs. rewrite <- Hs.
    destruct (Container_UnmarshalJSON c (Some (JObject members)))
      as [[c' [e|]]|].
    + by destruct (Hne c' e).
    + split; [done|]. intros []. by exists c'.
    + split; [|done]. by intros _ [? ?].
  - intros h.
    pose proof (Host_UnmarshalJSON_no_error h members) as Hne.
    assert ((∃ h', Host_UnmarshalJSON h (Some (JObject members))
                   = Returned (h', None)) ↔ host_members_ok data) as Hs.
    { split.
      - intros [h' [? ?]%Host_UnmarshalJSON_success]; [|done].
        split; by eexists.
      - intros [[u Hu] [n Hn]]. exists (mkHost u n).
        by apply Host_UnmarshalJSON_success. }
    split; [intros h' e; by apply Hne|].
    split; [done|]. split.
    + rewrite <- Hs.
      destruct (Host_UnmarshalJSON h (Some (JObject members)))
        as [[h' [e|]]|].
      * by destruct (Hne h' e).
      * split; [done|]. intros []. by exists h'.
      * split; [|done]. by intros _ [? ?].
    + intros h'. by apply Host_UnmarshalJSON_success.
Qed.

(** The object with a member [1e999]: an error from either decoder, where
    the same object without that member makes both panic. *)
Example UnmarshalJSON_number_out_of_range :
  Container_UnmarshalJSON zero_Container
    (Some (JObject [("x", JNumber "1e999")]))
  = Returned (zero_Container, Some ErrDecode) ∧
  Host_UnmarshalJSON zero_Host
    (Some (JObject [("x", JArray [JObject [("y", JNumber "-1E400")]])]))
  = Returned (zero_Host, Some ErrDecode) ∧
  Container_UnmarshalJSON zero_Container (Some (JObject [])) = Panicked.
Proof. split_and!; vm_compute; reflexivity. Qed.
